(** * SimPEG survey bookkeeping and the volume-regularisation objective

    A shallow embedding of

    - [SimPEG/Examples/SEIS_VolumeRegularization.py]: the class [Volume]
      ([__call__], [estVol], [deriv], [deriv2]);
    - [SimPEG/NewSurvey.py]: [RxLocationArray], [BaseRx], [BaseTimeRx],
      [BaseSrc] and [BaseSurvey].

    Conventions of the embedding.

    - A Python call either returns a value or raises: [result A].
    - numpy's float64 arithmetic is idealised by the real numbers [R]; a
      one-dimensional float array is a [list R].
    - Python compares and hashes the survey objects by identity; every
      object therefore carries its identity ([rx_oid], [src_oid],
      [mesh_oid]) next to its attributes.
    - A Python [dict] is a [gmap].
    - An exception carries the fixed part of its message; the text Python
      formats into it from the offending objects is left out. *)

From Stdlib Require Import Reals Lra Lia ZArith List.
From stdpp Require Import gmap strings list fin_maps.

(** ** Exceptions *)

Inductive exn : Type :=
  | ValueError (msg : string)
  | AssertionError (msg : string)
  | KeyError (msg : string)
  | AttributeError (msg : string)
  | IndexError (msg : string)
  | ValidationError (msg : string)
  | Exception (msg : string).

Inductive result (A : Type) : Type :=
  | Return (a : A)
  | Raise (e : exn).
Arguments Return {A} a.
Arguments Raise {A} e.

#[global] Instance result_ret : MRet result := λ A a, Return a.

#[global] Instance result_bind : MBind result := λ A B k c,
  match c with
  | Return a => k a
  | Raise e => Raise e
  end.

Definition raises {A : Type} (c : result A) : Prop :=
  match c with
  | Return _ => False
  | Raise _ => True
  end.

(** ** numpy on one-dimensional float arrays *)

Module Np.
Local Open Scope R_scope.

Definition sum (a : list R) : R := fold_right Rplus 0 a.

(** [a * b] on two arrays of one shape. *)
Definition mul (a b : list R) : list R := zip_with Rmult a b.

(** [a * s], an array times a scalar. *)
Definition scale (a : list R) (s : R) : list R := map (λ x, x * s) a.

(** [np.inner(a, b)] for one-dimensional [a] and [b]: the shapes must agree. *)
Definition inner (a b : list R) : result R :=
  if Nat.eqb (length a) (length b) then Return (sum (mul a b))
  else Raise (ValueError "shapes not aligned").

(** A dense two-dimensional array: its shape and its rows. *)
Record matrix : Type := Matrix {
  nrows : nat;
  ncols : nat;
  rows : list (list R)
}.

(** [np.outer(a, b)]. *)
Definition outer (a b : list R) : matrix :=
  {| nrows := length a;
     ncols := length b;
     rows := map (λ x, map (λ y, x * y) b) a |}.

(** [a + b] on two arrays of one shape. *)
Definition add (a b : list R) : list R := zip_with Rplus a b.

(** The [i]-th coordinate direction of length [n]. *)
Definition basis (n i : nat) : list R := <[i := 1]> (replicate n 0).

(** [a - b] on two arrays of one shape. *)
Definition sub (a b : list R) : list R := zip_with Rminus a b.

(** [M @ v] for a vector [v]. *)
Definition matvec (M : matrix) (v : list R) : result (list R) :=
  if Nat.eqb (ncols M) (length v)
  then Return (map (λ row, sum (mul row v)) (rows M))
  else Raise (ValueError "dimension mismatch").

(** [scipy.sparse.kron(A, B)]: the block matrix whose block [(i, j)] is
    [A[i, j] * B]. *)
Definition kron (A B : matrix) : matrix :=
  {| nrows := nrows A * nrows B;
     ncols := ncols A * ncols B;
     rows := flat_map (λ ra, map (λ rb, flat_map (λ a, map (λ b, a * b) rb) ra)
                                 (rows B))
                      (rows A) |}.

End Np.

(** ** Utils.mkvc *)

(** An n-dimensional array, by its shape and its elements. *)
Record ndarray (A : Type) : Type := NdArray {
  shape : list nat;
  data : list A
}.
Arguments NdArray {A} shape data.
Arguments shape {A} _.
Arguments data {A} _.

(** Modelled from the spec: [Utils.mkvc] is not among the sources. Applied
    to a vector, [mkvc(x, numDims)] keeps the elements in order and returns
    them with [numDims] dimensions: the vector itself for 1, one column for
    2, and a column of depth one for 3. The function has no branch for
    another [numDims] and returns Python's [None] there. *)
Definition mkvc {A : Type} (x : list A) (numDims : nat) : option (ndarray A) :=
  match numDims with
  | 1 => Some (NdArray [length x] x)
  | 2 => Some (NdArray [length x; 1] x)
  | 3 => Some (NdArray [length x; 1; 1] x)
  | _ => None
  end.

(** ** The mesh collaborator *)

(** A mesh exposes its cell volumes and builds interpolation matrices; the
    construction is the mesh's own and may raise. *)
Record Mesh : Type := {
  mesh_oid : nat;
  vol : list R;
  getInterpolationMat : ndarray R → string → result Np.matrix
}.

(** ** SEIS_VolumeRegularization.Volume *)

Module Volume.
Local Open Scope R_scope.

Record Volume : Type := {
  mesh : Mesh;
  knownVolume : R
}.

Definition estVol (self : Volume) (m : list R) : result R :=
  Np.inner (vol (mesh self)) m.

Definition __call__ (self : Volume) (m : list R) : result R :=
  est ← estVol self m ;
  Return (0.5 * (est - knownVolume self) ^ 2).

Definition deriv (self : Volume) (m : list R) : result (list R) :=
  d ← Np.inner (vol (mesh self)) m ;
  Return (Np.scale (vol (mesh self)) (knownVolume self - d)).

(** [deriv2] returns a vector when a direction is given and a matrix
    otherwise. *)
Inductive hessian : Type :=
  | HessVec (w : list R)
  | HessMat (H : Np.matrix).

Definition deriv2 (self : Volume) (m : list R) (v : option (list R))
  : result hessian :=
  match v with
  | Some v =>
      d ← Np.inner (vol (mesh self)) v ;
      match mkvc (Np.scale (vol (mesh self)) d) 1 with
      | Some w => Return (HessVec (data w))
      | None => Raise (AttributeError "mkvc")
      end
  | None =>
      Return (HessMat (Np.outer (vol (mesh self)) (vol (mesh self))))
  end.

(** The gradient check of the specification: the difference quotient of
    [__call__] at [m] along the [i]-th coordinate direction with step [h]. *)
Definition difference_quotient (self : Volume) (m : list R) (i : nat) (h : R)
  : result R :=
  fh ← __call__ self (Np.add m (Np.scale (Np.basis (length m) i) h)) ;
  f0 ← __call__ self m ;
  Return ((fh - f0) / h).

(** The check passes at [m] for a candidate gradient [grad] when every
    difference quotient is within [O(h)] of the matching component. *)
Definition gradient_check (self : Volume)
    (grad : Volume → list R → result (list R)) (m : list R) : Prop :=
  ∀ i, (i < length m)%nat →
    ∃ C δ, 0 < δ ∧
      ∀ h, h ≠ 0 → Rabs h < δ →
        ∃ q g gi, difference_quotient self m i h = Return q ∧
                  grad self m = Return g ∧ g !! i = Some gi ∧
                  Rabs (q - gi) <= C * Rabs h.

(** A small mesh and objectives on which the statements are exercised. *)
Definition mesh3 : Mesh :=
  {| mesh_oid := 0; vol := [1; 2; 3];
     getInterpolationMat := λ _ _, Return (Np.outer [] []) |}.

Definition volume3 : Volume := {| mesh := mesh3; knownVolume := 10 |}.

Definition mesh1 : Mesh :=
  {| mesh_oid := 1; vol := [1];
     getInterpolationMat := λ _ _, Return (Np.outer [] []) |}.

Definition volume1 : Volume := {| mesh := mesh1; knownVolume := 0 |}.

(** [deriv] with the opposite sign. *)
Definition neg_deriv (self : Volume) (m : list R) : result (list R) :=
  g ← deriv self m ; Return (map Ropp g).

End Volume.

(** ** numpy on integer arrays and array transposition *)

Module NpInt.
Local Open Scope Z_scope.

(** The value an int64 holds after an operation whose exact result is [z]. *)
Definition int64 (z : Z) : Z := (z + 2 ^ 63) mod 2 ^ 64 - 2 ^ 63.

(** [np.array(l).sum()] for a list of counts that each fit an int64: the
    array has dtype int64 and its sum wraps around. The empty list sums to
    the float 0.0, and a list that holds such a float makes a float64 array,
    whose sum is exact below 2^53; these floats are identified with the
    integers they equal. *)
Definition sum (l : list Z) : Z := int64 (fold_right Z.add 0 l).

End NpInt.

(** Row-major multi-indices of an array of shape [s], and the position of a
    multi-index in the row-major element list. *)
Definition multi_indices (s : list nat) : list (list nat) :=
  fold_right (λ n acc, flat_map (λ i, map (cons i) acc) (seq 0 n)) [[]] s.

Definition flat_index (s idx : list nat) : nat :=
  fold_left (λ acc ni, acc * fst ni + snd ni) (zip s idx) 0.

(** [a.T]: the axes are reversed. *)
Definition T {A : Type} (a : ndarray A) : ndarray A :=
  NdArray (rev (shape a))
          (omap (λ j, data a !! flat_index (shape a) (rev j))
                (multi_indices (rev (shape a)))).

(** ** SimPEG.NewSurvey *)

Module NewSurvey.

Definition Uuid : Type := N.

(** [properties.Array.validate] for a property declared with
    [shape=("*", "*")] or [shape=("*",)]: the number of dimensions of the
    value must be that of the declared shape; every extent is free. *)
Definition Array_validate (ndim : nat) (value : ndarray R) : result (ndarray R) :=
  if Nat.eqb (length (shape value)) ndim then Return value
  else Raise (ValidationError "the array has the wrong number of dimensions").

Module RxLocationArray.

Definition validate (value : ndarray R) : result (ndarray R) :=
  value ← (if Nat.eqb (length (shape value)) 1
           then match mkvc (data value) 2 with
                | Some col => Return (T col)
                | None => Raise (AttributeError "T")
                end
           else Return value) ;
  Array_validate 2 value.

End RxLocationArray.

(** *** BaseRx *)

Record BaseRx : Type := {
  rx_oid : nat;
  locs : ndarray R;
  projGLoc : string;
  storeProjections : bool;
  uid : Uuid;
  _Ps : gmap (nat * string) Np.matrix
}.

Module BaseRx.

(** [BaseRx(locs=value)]: the keyword is assigned through its validator;
    the other properties take their defaults. [oid] and [uid] are the
    identity and the identifier the new object receives. *)
Definition __init__ (oid : nat) (uid : Uuid) (value : ndarray R) : result BaseRx :=
  value ← RxLocationArray.validate value ;
  Return {| rx_oid := oid; locs := value; projGLoc := "CC";
            storeProjections := true; uid := uid; _Ps := ∅ |}.

(** [self.locs = value]. *)
Definition set_locs (self : BaseRx) (value : ndarray R) : result BaseRx :=
  value ← RxLocationArray.validate value ;
  Return {| rx_oid := rx_oid self; locs := value; projGLoc := projGLoc self;
            storeProjections := storeProjections self; uid := uid self;
            _Ps := _Ps self |}.

(** [self.locs.shape[0]]. *)
Definition nD (self : BaseRx) : result Z :=
  match shape (locs self) with
  | n :: _ => Return (Z.of_nat n)
  | [] => Raise (IndexError "tuple index out of range")
  end.

(** What one call of [getP] leaves behind: the value or exception of the
    call, the receiver afterwards, and the keys for which the mesh built an
    interpolation matrix during the call. *)
Record outcome : Type := Outcome {
  value : result Np.matrix;
  receiver : BaseRx;
  built : list (nat * string)
}.

Definition store (self : BaseRx) (key : nat * string) (P : Np.matrix) : BaseRx :=
  {| rx_oid := rx_oid self; locs := locs self; projGLoc := projGLoc self;
     storeProjections := storeProjections self; uid := uid self;
     _Ps := <[key := P]> (_Ps self) |}.

Definition getP (self : BaseRx) (mesh : Mesh) (projGLoc : option string) : outcome :=
  let projGLoc := match projGLoc with
                  | None => NewSurvey.projGLoc self
                  | Some g => g
                  end in
  match _Ps self !! (mesh_oid mesh, projGLoc) with
  | Some P => Outcome (Return P) self []
  | None =>
      match getInterpolationMat mesh (locs self) projGLoc with
      | Raise e => Outcome (Raise e) self []
      | Return P =>
          Outcome (Return P)
                  (if storeProjections self
                   then store self (mesh_oid mesh, projGLoc) P
                   else self)
                  [(mesh_oid mesh, projGLoc)]
      end
  end.

(** A run of [getP] calls on one receiver: the receiver at the end and the
    keys built on the way, in order. *)
Fixpoint getP_run (self : BaseRx) (calls : list (Mesh * option string))
  : BaseRx * list (nat * string) :=
  match calls with
  | [] => (self, [])
  | (mesh, g) :: calls =>
      let o := getP self mesh g in
      let r := getP_run (receiver o) calls in
      (fst r, built o ++ snd r)
  end.

End BaseRx.

(** *** BaseTimeRx *)

Record BaseTimeRx : Type := {
  base : BaseRx;
  times : list R;
  projTLoc : string
}.

Module BaseTimeRx.

(** [self.locs.shape[0] * len(self.times)]. *)
Definition nD (self : BaseTimeRx) : result Z :=
  n ← BaseRx.nD (base self) ;
  Return (n * Z.of_nat (length (times self)))%Z.

(** [mesh.getInterpolationMat(self.locs, self.projGLoc)]; nothing is
    stored. *)
Definition getSpatialP (self : BaseTimeRx) (mesh : Mesh) : result Np.matrix :=
  getInterpolationMat mesh (locs (base self)) (projGLoc (base self)).

(** [timeMesh.getInterpolationMat(self.times, self.projTLoc)]; nothing is
    stored. *)
Definition getTimeP (self : BaseTimeRx) (timeMesh : Mesh) : result Np.matrix :=
  getInterpolationMat timeMesh
    (NdArray [length (times self)] (times self)) (projTLoc self).

(** [BaseTimeRx.getP] keeps its matrices in the dictionary [_Ps] too, under
    keys that are pairs of meshes. Such a key never equals a key of
    [BaseRx.getP], whose second component is a string, so these entries are
    a map of their own; it is carried next to the receiver. *)
Record cached : Type := Cached {
  rx : BaseTimeRx;
  _Ps_time : gmap (nat * nat) Np.matrix
}.

Record outcome : Type := Outcome {
  value : result Np.matrix;
  receiver : cached;
  built : list (nat * nat)
}.

Definition getP (self : cached) (mesh timeMesh : Mesh) : outcome :=
  match _Ps_time self !! (mesh_oid mesh, mesh_oid timeMesh) with
  | Some P => Outcome (Return P) self []
  | None =>
      match getSpatialP (rx self) mesh with
      | Raise e => Outcome (Raise e) self []
      | Return Ps =>
          match getTimeP (rx self) timeMesh with
          | Raise e => Outcome (Raise e) self []
          | Return Pt =>
              let P := Np.kron Pt Ps in
              Outcome (Return P)
                      (if storeProjections (base (rx self))
                       then Cached (rx self)
                              (<[(mesh_oid mesh, mesh_oid timeMesh) := P]>
                                 (_Ps_time self))
                       else self)
                      [(mesh_oid mesh, mesh_oid timeMesh)]
          end
      end
  end.

(** A run of [getP] calls on one time receiver. *)
Fixpoint getP_run (self : cached) (calls : list (Mesh * Mesh))
  : cached * list (nat * nat) :=
  match calls with
  | [] => (self, [])
  | (mesh, timeMesh) :: calls =>
      let o := getP self mesh timeMesh in
      let r := getP_run (receiver o) calls in
      (fst r, built o ++ snd r)
  end.

End BaseTimeRx.

(** An element of a receiver list is an instance of [BaseRx] or of its
    subclass; [nD] dispatches on the class. *)
Inductive Rx : Type :=
  | IsBaseRx (rx : BaseRx)
  | IsBaseTimeRx (rx : BaseTimeRx).

Definition as_BaseRx (rx : Rx) : BaseRx :=
  match rx with
  | IsBaseRx rx => rx
  | IsBaseTimeRx rx => base rx
  end.

Definition Rx_nD (rx : Rx) : result Z :=
  match rx with
  | IsBaseRx rx => BaseRx.nD rx
  | IsBaseTimeRx rx => BaseTimeRx.nD rx
  end.

(** What [getattr(x, 'uid', None)] and identity see of an arbitrary Python
    object handed to an index lookup. *)
Record pyobject : Type := PyObject {
  oid : nat;
  uid_attr : option Uuid
}.

(** The argument of an index lookup: a list, or anything else. *)
Inductive lookup_arg : Type :=
  | NotAList (x : pyobject)
  | AList (xs : list pyobject).

(** [d.setdefault(k, v)], for its effect on [d]. *)
Definition setdefault (d : gmap Uuid nat) (k : Uuid) (v : nat) : gmap Uuid nat :=
  match d !! k with
  | Some _ => d
  | None => <[k := v]> d
  end.

(** [enumerate(value, start)]. *)
Definition enumerate {A : Type} (value : list A) (start : nat) : list (nat * A) :=
  zip (seq start (length value)) value.

(** [[d.setdefault(key(x), ii) for ii, x in pairs]], for its effect on [d]. *)
Definition setdefault_each {A : Type} (key : A → Uuid) (pairs : list (nat * A))
    (d : gmap Uuid nat) : gmap Uuid nat :=
  fold_left (λ d ix, setdefault d (key (snd ix)) (fst ix)) pairs d.

(** [len(set(value))], the objects being hashed by identity. *)
Definition len_set (oids : list nat) : nat :=
  size (list_to_set oids : gset nat).

(** [None in inds], then [inds] without the option. *)
Fixpoint all_found (inds : list (option nat)) : option (list nat) :=
  match inds with
  | [] => Some []
  | None :: _ => None
  | Some i :: inds => cons i <$> all_found inds
  end.

(** [for x in xs: if getattr(x, 'uid', None) is None: raise KeyError(msg)];
    the uids are kept for the lookups that follow. *)
Fixpoint require_uids (msg : string) (xs : list pyobject) : result (list Uuid) :=
  match xs with
  | [] => Return []
  | x :: xs =>
      match uid_attr x with
      | None => Raise (KeyError msg)
      | Some u => us ← require_uids msg xs ; Return (u :: us)
      end
  end.

(** [list(map(lambda x: order.get(x.uid, None), xs))]; [order] is an
    attribute the validator creates, and reading it before that raises as
    soon as the lambda runs. *)
Definition get_all (attr : string) (order : option (gmap Uuid nat))
    (us : list Uuid) : result (list (option nat)) :=
  match us with
  | [] => Return []
  | _ :: _ =>
      match order with
      | None => Raise (AttributeError attr)
      | Some d => Return ((λ u, d !! u) <$> us)
      end
  end.

(** *** BaseSrc *)

Record BaseSrc : Type := {
  src_oid : nat;
  loc : list R;
  rxList : list Rx;
  src_uid : Uuid;
  _rxOrder : option (gmap Uuid nat)
}.

Module BaseSrc.

Definition _rxList_validator (self : BaseSrc) (value : list Rx) : result BaseSrc :=
  if Nat.eqb (len_set ((λ rx, rx_oid (as_BaseRx rx)) <$> value)) (length value)
  then Return {| src_oid := src_oid self; loc := loc self;
                 rxList := rxList self; src_uid := src_uid self;
                 _rxOrder :=
                   Some (setdefault_each (λ rx, uid (as_BaseRx rx))
                                         (enumerate value 0) ∅) |}
  else Raise (AssertionError "The rxList must be unique").

(** [self.rxList = value]: the validator runs, then the value is stored. *)
Definition set_rxList (self : BaseSrc) (value : list Rx) : result BaseSrc :=
  self ← _rxList_validator self value ;
  Return {| src_oid := src_oid self; loc := loc self; rxList := value;
            src_uid := src_uid self; _rxOrder := _rxOrder self |}.

Definition getReceiverIndex (self : BaseSrc) (receiver : lookup_arg)
  : result (list nat) :=
  let receiver := match receiver with
                  | NotAList x => [x]
                  | AList xs => xs
                  end in
  us ← require_uids "Source does not have a uid: " receiver ;
  inds ← get_all "_rxOrder" (_rxOrder self) us ;
  match all_found inds with
  | None => Raise (KeyError "Some of the receiver specified are not in this survey. ")
  | Some inds => Return inds
  end.

Definition vnD (self : BaseSrc) : result (list Z) :=
  mapM Rx_nD (rxList self).

Definition nD (self : BaseSrc) : result Z :=
  v ← vnD self ; Return (NpInt.sum v).

End BaseSrc.

(** *** BaseSurvey *)

Record BaseSurvey : Type := {
  srcList : list BaseSrc;
  _sourceOrder : option (gmap Uuid nat)
}.

Module BaseSurvey.

Definition _srcList_validator (self : BaseSurvey) (value : list BaseSrc)
  : result BaseSurvey :=
  if Nat.eqb (len_set (src_oid <$> value)) (length value)
  then Return {| srcList := srcList self;
                 _sourceOrder :=
                   Some (setdefault_each src_uid (enumerate value 0) ∅) |}
  else Raise (AssertionError "The srcList must be unique").

(** [self.srcList = value]. *)
Definition set_srcList (self : BaseSurvey) (value : list BaseSrc)
  : result BaseSurvey :=
  self ← _srcList_validator self value ;
  Return {| srcList := value; _sourceOrder := _sourceOrder self |}.

Definition getSourceIndex (self : BaseSurvey) (sources : lookup_arg)
  : result (list nat) :=
  let sources := match sources with
                 | NotAList x => [x]
                 | AList xs => xs
                 end in
  us ← require_uids "Source does not have a uid: " sources ;
  inds ← get_all "_sourceOrder" (_sourceOrder self) us ;
  match all_found inds with
  | None => Raise (KeyError "Some of the sources specified are not in this survey. ")
  | Some inds => Return inds
  end.

Definition vnD (self : BaseSurvey) : result (list Z) :=
  mapM BaseSrc.nD (srcList self).

Definition nD (self : BaseSurvey) : result Z :=
  v ← vnD self ; Return (NpInt.sum v).

Definition nSrc (self : BaseSurvey) : nat := length (srcList self).

Definition dpred {F : Type} (self : BaseSurvey) (m : list R) (f : option F)
  : result (list R) :=
  Raise (Exception
    "Survey no longer has the dpred method. Please use simulation.dpred instead").

End BaseSurvey.

(** How an index lookup sees a receiver and a source. *)
Definition Rx_object (rx : Rx) : pyobject :=
  PyObject (rx_oid (as_BaseRx rx)) (Some (uid (as_BaseRx rx))).

Definition Src_object (src : BaseSrc) : pyobject :=
  PyObject (src_oid src) (Some (src_uid src)).

(** [i] is the first position of [value] whose element carries the
    identifier [u]. *)
Definition first_position {A : Type} (key : A → Uuid) (value : list A)
    (u : Uuid) (i : nat) : Prop :=
  (∃ a, value !! i = Some a ∧ key a = u) ∧
  (∀ j b, value !! j = Some b → j < i → key b ≠ u).

(** *** Data counts, counted directly *)

(** The number of rows of an array. *)
Definition rows {A : Type} (a : ndarray A) : nat :=
  match shape a with
  | n :: _ => n
  | [] => 0
  end.

(** The data of a receiver: one per location, and for a time-domain
    receiver one per location and time sample. *)
Definition Rx_count (rx : Rx) : Z :=
  match rx with
  | IsBaseRx rx => Z.of_nat (rows (locs rx))
  | IsBaseTimeRx rx =>
      Z.of_nat (rows (locs (base rx))) * Z.of_nat (length (times rx))
  end.

Definition total (l : list Z) : Z := fold_right Z.add 0%Z l.

Definition Src_count (src : BaseSrc) : Z := total (Rx_count <$> rxList src).

Definition Survey_count (survey : BaseSurvey) : Z :=
  total (Src_count <$> srcList survey).

(** The locations of every receiver of the survey went through
    [RxLocationArray.validate]: they have two dimensions. *)
Definition locs_validated (survey : BaseSurvey) : Prop :=
  ∀ src rx, src ∈ srcList survey → rx ∈ rxList src →
            length (shape (locs (as_BaseRx rx))) = 2.

(** *** Sample objects *)

Module Samples.

Definition locs2 : ndarray R := NdArray [2; 3] [0; 0; 0; 1; 1; 1]%R.

Definition rxA : BaseRx :=
  {| rx_oid := 10; locs := locs2; projGLoc := "CC"; storeProjections := true;
     uid := 100%N; _Ps := ∅ |}.

Definition rxB : BaseTimeRx :=
  {| base := {| rx_oid := 11; locs := locs2; projGLoc := "CC";
                storeProjections := true; uid := 101%N; _Ps := ∅ |};
     times := [0; 1; 2; 3]%R; projTLoc := "N" |}.

Definition rxC : BaseRx :=
  {| rx_oid := 12; locs := locs2; projGLoc := "F"; storeProjections := false;
     uid := 102%N; _Ps := ∅ |}.

(** A source as [BaseSrc()] leaves it: no receiver assigned yet. *)
Definition new_src (oid : nat) (uid : Uuid) : BaseSrc :=
  {| src_oid := oid; loc := []; rxList := []; src_uid := uid; _rxOrder := None |}.

Definition receivers : list Rx := [IsBaseRx rxA; IsBaseTimeRx rxB].

Definition srcA : BaseSrc :=
  {| src_oid := 20; loc := []; rxList := receivers; src_uid := 200%N;
     _rxOrder := Some (setdefault_each (λ rx, uid (as_BaseRx rx))
                                       (enumerate receivers 0) ∅) |}.

Definition srcB : BaseSrc :=
  {| src_oid := 21; loc := []; rxList := [IsBaseRx rxA]; src_uid := 201%N;
     _rxOrder := Some (setdefault_each (λ rx, uid (as_BaseRx rx))
                                       (enumerate [IsBaseRx rxA] 0) ∅) |}.

(** A survey before its source list is assigned. *)
Definition new_survey : BaseSurvey := {| srcList := []; _sourceOrder := None |}.

Definition survey : BaseSurvey :=
  {| srcList := [srcA; srcB];
     _sourceOrder := Some (setdefault_each src_uid (enumerate [srcA; srcB] 0) ∅) |}.

(** Four calls of [getP] on one mesh, two of them for the default grid
    location. *)
Definition getP_calls : list (Mesh * option string) :=
  [(Volume.mesh3, None); (Volume.mesh3, Some "F");
   (Volume.mesh3, Some "CC"); (Volume.mesh3, Some "F")].

(** A mesh whose interpolation matrix has one row per location (per
    element of a vector), and a receiver on it. *)
Definition row_mesh (oid : nat) : Mesh :=
  {| mesh_oid := oid; vol := [];
     getInterpolationMat := λ l _,
       Return {| Np.nrows := rows l; Np.ncols := 1;
                 Np.rows := replicate (rows l) [1%R] |} |}.

Definition timed : BaseTimeRx.cached := BaseTimeRx.Cached rxB ∅.

(** A second receiver object that carries the uid of [rxA], as a copy of
    [rxA] does, and a receiver list that holds both. *)
Definition rxA_twin : BaseRx :=
  {| rx_oid := 13; locs := locs2; projGLoc := "CC"; storeProjections := true;
     uid := 100%N; _Ps := ∅ |}.

Definition receivers_with_twin : list Rx :=
  [IsBaseRx rxA; IsBaseTimeRx rxB; IsBaseRx rxA_twin].

(** Two time-domain receivers with 2^59 locations of no coordinate and 8
    time samples each, hence 2^62 data each, on one source. *)
Definition big_rows : nat := 2 ^ 59.

Definition bigA : BaseTimeRx :=
  {| base := {| rx_oid := 30; locs := NdArray [big_rows; 0] [];
                projGLoc := "CC"; storeProjections := true; uid := 300%N;
                _Ps := ∅ |};
     times := [0; 1; 2; 3; 4; 5; 6; 7]%R; projTLoc := "N" |}.

Definition bigB : BaseTimeRx :=
  {| base := {| rx_oid := 31; locs := NdArray [big_rows; 0] [];
                projGLoc := "CC"; storeProjections := true; uid := 301%N;
                _Ps := ∅ |};
     times := [0; 1; 2; 3; 4; 5; 6; 7]%R; projTLoc := "N" |}.

Definition big_src : BaseSrc :=
  {| src_oid := 32; loc := []; rxList := [IsBaseTimeRx bigA; IsBaseTimeRx bigB];
     src_uid := 302%N;
     _rxOrder := Some (setdefault_each (λ rx, uid (as_BaseRx rx))
                         (enumerate [IsBaseTimeRx bigA; IsBaseTimeRx bigB] 0) ∅) |}.

Definition big_survey : BaseSurvey :=
  {| srcList := [big_src];
     _sourceOrder := Some (setdefault_each src_uid (enumerate [big_src] 0) ∅) |}.

End Samples.

End NewSurvey.

(** * Properties *)

(** ** The result monad *)

Lemma bind_Return {A B : Type} (a : A) (k : A → result B) :
  (Return a ≫= k) = k a.
Proof. reflexivity. Qed.

Lemma bind_Raise {A B : Type} (e : exn) (k : A → result B) :
  (Raise e ≫= k) = Raise e.
Proof. reflexivity. Qed.

(** ** numpy *)

Module NpFacts.
Local Open Scope R_scope.

Lemma inner_same_length (a b : list R) :
  length a = length b → Np.inner a b = Return (Np.sum (Np.mul a b)).
Proof.
  intros Hlen. unfold Np.inner. rewrite Hlen, Nat.eqb_refl. reflexivity.
Qed.

Lemma inner_other_length (a b : list R) :
  length a ≠ length b → raises (Np.inner a b).
Proof.
  intros Hlen. unfold Np.inner.
  destruct (Nat.eqb_spec (length a) (length b)); [contradiction | exact I].
Qed.

Lemma inner_Return (a b : list R) (d : R) :
  Np.inner a b = Return d → length a = length b ∧ d = Np.sum (Np.mul a b).
Proof.
  unfold Np.inner.
  destruct (Nat.eqb_spec (length a) (length b)); intros [=]; auto.
Qed.

Lemma scale_lookup (a : list R) (s : R) (i : nat) :
  Np.scale a s !! i = (λ x, x * s) <$> a !! i.
Proof. unfold Np.scale. apply list_lookup_fmap. Qed.

Lemma scale_zero (a : list R) : Np.scale a 0 = replicate (length a) 0.
Proof.
  induction a as [|x a IH]; simpl; [reflexivity|].
  rewrite IH. f_equal. lra.
Qed.

(** A row of the outer product applied to [v] is the scaled inner product. *)
Lemma sum_mul_scaled_row (x : R) (b v : list R) :
  Np.sum (Np.mul (map (λ y, x * y) b) v) = x * Np.sum (Np.mul b v).
Proof.
  revert v. induction b as [|y b IH]; intros [|z v]; simpl; try lra.
  rewrite IH. lra.
Qed.

Lemma outer_matvec (a b v : list R) :
  length v = length b →
  Np.matvec (Np.outer a b) v = Return (Np.scale a (Np.sum (Np.mul b v))).
Proof.
  intros Hlen. unfold Np.matvec. simpl. rewrite Hlen, Nat.eqb_refl.
  f_equal. unfold Np.scale. rewrite <- list_fmap_compose.
  apply list_fmap_ext. intros _ x _. simpl. apply sum_mul_scaled_row.
Qed.

End NpFacts.

(** ** The volume objective *)

Module VolumeFacts.
Import Volume.
Local Open Scope R_scope.

(** C1. For a model [m] as long as the cell-volume vector, [deriv] returns
    [vol * (knownVolume - dot(vol, m))]: the result has the length of [vol]
    and its component [i] is [vol[i] * (knownVolume - dot(vol, m))]. *)
Theorem deriv_is_scaled_vol (self : Volume) (m : list R) :
  length m = length (vol (mesh self)) →
  let dot := Np.sum (Np.mul (vol (mesh self)) m) in
  ∃ g, deriv self m = Return g ∧
       g = map (λ x, x * (knownVolume self - dot)) (vol (mesh self)) ∧
       length g = length (vol (mesh self)) ∧
       ∀ i x, vol (mesh self) !! i = Some x →
              g !! i = Some (x * (knownVolume self - dot)).
Proof.
  intros Hlen dot. unfold deriv.
  rewrite NpFacts.inner_same_length by (symmetry; exact Hlen).
  rewrite bind_Return. eexists. split; [reflexivity|].
  split; [reflexivity|]. split.
  - unfold Np.scale. apply length_map.
  - intros i x Hx. rewrite NpFacts.scale_lookup, Hx. reflexivity.
Qed.

Lemma deriv_is_scaled_vol_witness :
  deriv volume3 [1; 1; 1] = Return [1 * (10 - (1 * 1 + (2 * 1 + (3 * 1 + 0))));
                                    2 * (10 - (1 * 1 + (2 * 1 + (3 * 1 + 0))));
                                    3 * (10 - (1 * 1 + (2 * 1 + (3 * 1 + 0))))].
Proof.
  destruct (deriv_is_scaled_vol volume3 [1; 1; 1] eq_refl) as (g & -> & -> & _).
  reflexivity.
Defined.

(** C3. When [dot(vol, m)] equals [knownVolume], [__call__] returns 0 and
    [deriv] returns the zero vector. *)
Theorem on_target_value_and_gradient_vanish (self : Volume) (m : list R) :
  estVol self m = Return (knownVolume self) →
  __call__ self m = Return 0 ∧
  deriv self m = Return (replicate (length (vol (mesh self))) 0).
Proof.
  intros Hest. unfold __call__, deriv, estVol in *.
  rewrite Hest, !bind_Return. split.
  - f_equal. nra.
  - f_equal. replace (knownVolume self - knownVolume self) with 0 by lra.
    apply NpFacts.scale_zero.
Qed.

Lemma on_target_value_and_gradient_vanish_witness :
  __call__ volume3 [1; 3; 1] = Return 0 ∧
  deriv volume3 [1; 3; 1] = Return [0; 0; 0].
Proof.
  apply (on_target_value_and_gradient_vanish volume3 [1; 3; 1]).
  unfold estVol. rewrite NpFacts.inner_same_length by reflexivity.
  f_equal. simpl. lra.
Defined.

(** C4. With a direction [v] as long as [vol], [deriv2(m, v)] is the
    product of the matrix [deriv2(m)], the outer product of [vol] with
    itself, and [v]; both are [vol * dot(vol, v)], whatever [m] is. With a
    direction of another length both the directional call and the
    matrix-vector product raise. *)
Theorem deriv2_is_hessian_times_direction (self : Volume) (m v : list R) :
  deriv2 self m None = Return (HessMat (Np.outer (vol (mesh self)) (vol (mesh self)))) ∧
  (length v = length (vol (mesh self)) →
     let w := Np.scale (vol (mesh self)) (Np.sum (Np.mul (vol (mesh self)) v)) in
     deriv2 self m (Some v) = Return (HessVec w) ∧
     Np.matvec (Np.outer (vol (mesh self)) (vol (mesh self))) v = Return w) ∧
  (length v ≠ length (vol (mesh self)) →
     raises (deriv2 self m (Some v)) ∧
     raises (Np.matvec (Np.outer (vol (mesh self)) (vol (mesh self))) v)) ∧
  (∀ m' d, deriv2 self m' d = deriv2 self m d).
Proof.
  split; [reflexivity|]. split; [|split].
  - intros Hlen w. split.
    + unfold deriv2. rewrite NpFacts.inner_same_length by (symmetry; exact Hlen).
      reflexivity.
    + apply NpFacts.outer_matvec. exact Hlen.
  - intros Hlen. split.
    + unfold deriv2.
      pose proof (NpFacts.inner_other_length (vol (mesh self)) v) as Hr.
      destruct (Np.inner (vol (mesh self)) v); [|exact I].
      exfalso. apply Hr. congruence.
    + unfold Np.matvec. simpl.
      destruct (Nat.eqb_spec (length (vol (mesh self))) (length v));
        [congruence | exact I].
  - intros m' d. reflexivity.
Qed.

Lemma deriv2_is_hessian_times_direction_witness :
  let w := Np.scale [1; 2; 3] (Np.sum (Np.mul [1; 2; 3] [4; 5; 6])) in
  deriv2 volume3 [0; 0; 0] (Some [4; 5; 6]) = Return (HessVec w) ∧
  Np.matvec (Np.outer [1; 2; 3] [1; 2; 3]) [4; 5; 6] = Return w.
Proof.
  exact (proj1 (proj2 (deriv2_is_hessian_times_direction
                         volume3 [0; 0; 0] [4; 5; 6])) eq_refl).
Defined.

(** Moving [m] along a coordinate direction moves the estimated volume by
    the cell volume times the step. *)
Lemma add_zero_direction (m : list R) (h : R) :
  Np.add m (Np.scale (replicate (length m) 0) h) = m.
Proof.
  induction m as [|x m IH]; simpl; [reflexivity|].
  change (x + 0 * h :: Np.add m (Np.scale (replicate (length m) 0) h) = x :: m).
  rewrite IH. f_equal. lra.
Qed.

Lemma sum_mul_step (a m : list R) (i : nat) (x h : R) :
  length m = length a → a !! i = Some x →
  Np.sum (Np.mul a (Np.add m (Np.scale (Np.basis (length m) i) h)))
  = Np.sum (Np.mul a m) + x * h.
Proof.
  revert m i. induction a as [|y a IH]; intros [|z m] i Hlen Hx;
    simpl in Hlen, Hx; try discriminate.
  destruct i as [|i]; simpl in Hx.
  - injection Hx as ->.
    change (x * (z + 1 * h)
            + Np.sum (Np.mul a (Np.add m (Np.scale (replicate (length m) 0) h)))
            = x * z + Np.sum (Np.mul a m) + x * h).
    rewrite add_zero_direction. lra.
  - change (y * (z + 0 * h)
            + Np.sum (Np.mul a (Np.add m (Np.scale (Np.basis (length m) i) h)))
            = y * z + Np.sum (Np.mul a m) + x * h).
    rewrite (IH m i (eq_add_S _ _ Hlen) Hx). lra.
Qed.

Lemma length_step (m : list R) (i : nat) (h : R) :
  length (Np.add m (Np.scale (Np.basis (length m) i) h)) = length m.
Proof.
  unfold Np.add, Np.scale, Np.basis. apply length_zip_with_l_eq.
  rewrite length_map, length_insert, length_replicate. reflexivity.
Qed.

(** The difference quotient of [__call__] in closed form. *)
Lemma difference_quotient_value (self : Volume) (m : list R) (i : nat) (x h : R) :
  length m = length (vol (mesh self)) → vol (mesh self) !! i = Some x → h ≠ 0 →
  difference_quotient self m i h
  = Return (x * (Np.sum (Np.mul (vol (mesh self)) m) - knownVolume self)
            + 0.5 * h * x ^ 2).
Proof.
  intros Hlen Hx Hh. unfold difference_quotient, __call__, estVol.
  rewrite !NpFacts.inner_same_length
    by (rewrite ?length_step; symmetry; exact Hlen).
  rewrite !bind_Return, (sum_mul_step _ _ _ _ _ Hlen Hx).
  apply (f_equal Return). replace 0.5 with (/ 2) by lra. field. exact Hh.
Qed.

(** The gradient of [__call__] is [vol * (dot(vol, m) - knownVolume)], the
    negation of what [deriv] returns: with the sign reversed, [deriv] passes
    the gradient check at every model of the right length. *)
Lemma neg_deriv_passes_gradient_check (self : Volume) (m : list R) :
  length m = length (vol (mesh self)) → gradient_check self neg_deriv m.
Proof.
  intros Hlen i Hi.
  destruct (lookup_lt_is_Some_2 (vol (mesh self)) i) as [x Hx]; [lia|].
  exists (0.5 * x ^ 2), 1. split; [lra|]. intros h Hh _.
  eexists _, _, _. split; [apply (difference_quotient_value _ _ _ _ _ Hlen Hx Hh)|].
  split; [|split].
  - unfold neg_deriv, deriv.
    rewrite NpFacts.inner_same_length by (symmetry; exact Hlen). reflexivity.
  - rewrite list_lookup_fmap, NpFacts.scale_lookup, Hx. reflexivity.
  - cbv beta.
    match goal with |- Rabs ?e <= _ => replace e with (0.5 * x ^ 2 * h) by ring end.
    rewrite Rabs_mult, (Rabs_pos_eq (0.5 * x ^ 2)); [lra | nra].
Qed.

(** [deriv] passes the gradient check at [m] only where the gradient of
    [__call__] vanishes. *)
Lemma deriv_gradient_check_iff (self : Volume) (m : list R) :
  length m = length (vol (mesh self)) →
  gradient_check self deriv m ↔
  ∀ i x, vol (mesh self) !! i = Some x →
         x * (Np.sum (Np.mul (vol (mesh self)) m) - knownVolume self) = 0.
Proof.
  intros Hlen. set (dot := Np.sum (Np.mul (vol (mesh self)) m)).
  assert (deriv self m = Return (Np.scale (vol (mesh self)) (knownVolume self - dot)))
    as Hderiv.
  { unfold deriv. rewrite NpFacts.inner_same_length by (symmetry; exact Hlen).
    reflexivity. }
  split.
  - intros Hcheck i x Hx.
    destruct (Req_dec (x * (dot - knownVolume self)) 0) as [Hz|Hnz]; [exact Hz|].
    exfalso. set (a := x * (dot - knownVolume self)) in *.
    destruct (Hcheck i) as (C & δ & Hδ & Hq).
    { rewrite Hlen. eapply lookup_lt_Some, Hx. }
    set (D := Rabs C + 0.5 * x ^ 2 + 1).
    pose proof (Rabs_pos C) as HC0. pose proof (Rle_abs C) as HC.
    pose proof (pow2_ge_0 x) as Hx2. pose proof (Rabs_pos_lt a Hnz) as Ha.
    assert (0 < D) as HD by (unfold D; lra).
    assert (0 < Rabs a / D) as Hpos by (apply Rdiv_lt_0_compat; lra).
    set (h := Rmin (δ / 2) (Rabs a / D)).
    assert (0 < h) as Hh by (apply Rmin_glb_lt; lra).
    assert (h <= δ / 2) as Hh1 by apply Rmin_l.
    assert (h <= Rabs a / D) as Hh2 by apply Rmin_r.
    assert (D * h <= Rabs a) as Hh3.
    { replace (Rabs a) with (D * (Rabs a / D)) by (field; lra).
      apply Rmult_le_compat_l; lra. }
    destruct (Hq h) as (q & g & gi & Hqv & Hg & Hgi & Hbound).
    { lra. }
    { rewrite Rabs_pos_eq; lra. }
    rewrite (difference_quotient_value self m i x h Hlen Hx) in Hqv by lra.
    injection Hqv as <-. rewrite Hderiv in Hg. injection Hg as <-.
    rewrite NpFacts.scale_lookup, Hx in Hgi. injection Hgi as <-.
    fold dot in Hbound. rewrite (Rabs_pos_eq h) in Hbound by lra.
    match type of Hbound with
    | Rabs ?e <= _ =>
        replace e with (2 * a + 0.5 * x ^ 2 * h) in Hbound by (unfold a; ring)
    end.
    assert (C * h <= Rabs C * h) as HCh by (apply Rmult_le_compat_r; lra).
    assert (D * h = Rabs C * h + 0.5 * x ^ 2 * h + h) as HDh by (unfold D; ring).
    assert (0 <= 0.5 * x ^ 2 * h) as Ht by (apply Rmult_le_pos; lra).
    pose proof (Rle_abs (2 * a + 0.5 * x ^ 2 * h)) as Hup.
    pose proof (Rle_abs (- (2 * a + 0.5 * x ^ 2 * h))) as Hdown.
    rewrite Rabs_Ropp in Hdown.
    destruct (Rcase_abs a) as [Hneg|Hnonneg].
    + rewrite (Rabs_left a Hneg) in *. lra.
    + rewrite (Rabs_right a Hnonneg) in *. lra.
  - intros Hzero i Hi.
    destruct (lookup_lt_is_Some_2 (vol (mesh self)) i) as [x Hx]; [lia|].
    exists (0.5 * x ^ 2), 1. split; [lra|]. intros h Hh _.
    eexists _, _, _.
    split; [apply (difference_quotient_value _ _ _ _ _ Hlen Hx Hh)|].
    split; [exact Hderiv|]. split.
    + rewrite NpFacts.scale_lookup, Hx. reflexivity.
    + cbv beta. specialize (Hzero i x Hx). fold dot in Hzero |- *.
      match goal with
      | |- Rabs ?e <= _ =>
          replace e with (0.5 * x ^ 2 * h)
            by (replace (x * (knownVolume self - dot))
                  with (- (x * (dot - knownVolume self))) by ring;
                rewrite Hzero; ring)
      end.
      rewrite Rabs_mult, (Rabs_pos_eq (0.5 * x ^ 2)); [lra | nra].
Qed.

(** C2, at [vol = [1]], [knownVolume = 0], [m = [1]]: the difference
    quotient of [__call__] is [1 + h/2] while [deriv] returns [[-1]], so the
    two stay more than 2 apart and [deriv] fails the gradient check. *)
Theorem deriv_fails_gradient_check :
  difference_quotient volume1 [1] 0 (1/4) = Return (1 * (1 * 1 + 0 - 0) + 0.5 * (1/4) * 1 ^ 2) ∧
  deriv volume1 [1] = Return [1 * (0 - (1 * 1 + 0))] ∧
  ¬ gradient_check volume1 deriv [1].
Proof.
  split; [apply (difference_quotient_value volume1 [1] 0 1); [reflexivity.. | lra]|].
  split; [reflexivity|].
  intros Hcheck. destruct (Hcheck 0%nat) as (C & δ & Hδ & Hq); [simpl; lia|].
  set (h := Rmin (δ / 2) (1 / (Rabs C + 1))).
  pose proof (Rabs_pos C) as HC0. pose proof (Rle_abs C) as HC.
  assert (0 < 1 / (Rabs C + 1)) as Hpos
    by (apply Rdiv_lt_0_compat; lra).
  assert (0 < h) as Hh by (apply Rmin_glb_lt; lra).
  assert (h <= δ / 2) as Hh1 by apply Rmin_l.
  assert (h <= 1 / (Rabs C + 1)) as Hh2 by apply Rmin_r.
  assert ((Rabs C + 1) * h <= 1) as Hh3.
  { replace 1 with ((Rabs C + 1) * (1 / (Rabs C + 1))) at 2 by (field; lra).
    apply Rmult_le_compat_l; lra. }
  destruct (Hq h) as (q & g & gi & Hqv & Hg & Hgi & Hbound).
  { lra. }
  { rewrite Rabs_pos_eq; lra. }
  rewrite (difference_quotient_value volume1 [1] 0 1 h) in Hqv
    by (try reflexivity; lra).
  injection Hqv as <-. injection Hg as <-. injection Hgi as <-.
  simpl in Hbound. rewrite (Rabs_pos_eq h) in Hbound by lra.
  rewrite Rabs_pos_eq in Hbound by nra. nra.
Qed.

(** *** Further properties of the volume objective *)

Lemma sum_mul_add (a m dm : list R) :
  length m = length a → length dm = length a →
  Np.sum (Np.mul a (Np.add m dm)) = Np.sum (Np.mul a m) + Np.sum (Np.mul a dm).
Proof.
  revert m dm. induction a as [|x a IH]; intros [|y m] [|z dm] Hm Hdm;
    simpl in Hm, Hdm; try discriminate.
  - simpl. lra.
  - change (x * (y + z) + Np.sum (Np.mul a (Np.add m dm))
            = x * y + Np.sum (Np.mul a m) + (x * z + Np.sum (Np.mul a dm))).
    rewrite (IH m dm (eq_add_S _ _ Hm) (eq_add_S _ _ Hdm)). lra.
Qed.

Lemma sum_mul_scale_l (a b : list R) (s : R) :
  Np.sum (Np.mul (Np.scale a s) b) = s * Np.sum (Np.mul a b).
Proof.
  revert b. induction a as [|x a IH]; intros [|y b]; simpl; try lra.
  change (x * s * y + Np.sum (Np.mul (Np.scale a s) b)
          = s * (x * y + Np.sum (Np.mul a b))).
  rewrite IH. lra.
Qed.

Lemma sum_mul_comm (a b : list R) : Np.sum (Np.mul a b) = Np.sum (Np.mul b a).
Proof.
  revert b. induction a as [|x a IH]; intros [|y b]; simpl; try lra.
  change (x * y + Np.sum (Np.mul a b) = y * x + Np.sum (Np.mul b a)).
  rewrite IH. lra.
Qed.

Lemma scale_sub (a : list R) (s t : R) :
  Np.scale a (s - t) = Np.sub (Np.scale a s) (Np.scale a t).
Proof.
  induction a as [|x a IH]; [reflexivity|].
  change (x * (s - t) :: Np.scale a (s - t)
          = (x * s - x * t) :: Np.sub (Np.scale a s) (Np.scale a t)).
  rewrite IH. f_equal. lra.
Qed.

Lemma scale_add_scale (a : list R) (s t c : R) :
  Np.scale a (s * c + t) = Np.add (Np.scale (Np.scale a s) c) (Np.scale a t).
Proof.
  induction a as [|x a IH]; [reflexivity|].
  change (x * (s * c + t) :: Np.scale a (s * c + t)
          = (x * s * c + x * t)
              :: Np.add (Np.scale (Np.scale a s) c) (Np.scale a t)).
  rewrite IH. f_equal. lra.
Qed.

Lemma length_add (a b : list R) :
  length b = length a → length (Np.add a b) = length a.
Proof. intros H. unfold Np.add. apply length_zip_with_l_eq. congruence. Qed.

Lemma length_scale (a : list R) (s : R) : length (Np.scale a s) = length a.
Proof. unfold Np.scale. apply length_map. Qed.

Lemma deriv_value (self : Volume) (m : list R) :
  length m = length (vol (mesh self)) →
  deriv self m
  = Return (Np.scale (vol (mesh self))
              (knownVolume self - Np.sum (Np.mul (vol (mesh self)) m))).
Proof.
  intros Hlen. unfold deriv.
  rewrite NpFacts.inner_same_length by (symmetry; exact Hlen). reflexivity.
Qed.

Lemma call_value (self : Volume) (m : list R) :
  length m = length (vol (mesh self)) →
  __call__ self m
  = Return (0.5 * (Np.sum (Np.mul (vol (mesh self)) m) - knownVolume self) ^ 2).
Proof.
  intros Hlen. unfold __call__, estVol.
  rewrite NpFacts.inner_same_length by (symmetry; exact Hlen). reflexivity.
Qed.

Lemma deriv2_value (self : Volume) (m v : list R) :
  length v = length (vol (mesh self)) →
  deriv2 self m (Some v)
  = Return (HessVec (Np.scale (vol (mesh self))
                       (Np.sum (Np.mul (vol (mesh self)) v)))).
Proof.
  intros Hlen. unfold deriv2.
  rewrite NpFacts.inner_same_length by (symmetry; exact Hlen). reflexivity.
Qed.

(** X1. The objective is never negative, and it is zero exactly when the
    estimated volume is the known volume. *)
Theorem call_nonneg_and_zero_iff_on_target (self : Volume) (m : list R) (f : R) :
  __call__ self m = Return f →
  0 <= f ∧ (f = 0 ↔ estVol self m = Return (knownVolume self)).
Proof.
  unfold __call__. destruct (estVol self m) as [est|e] eqn:Hest; [|discriminate].
  rewrite bind_Return. intros [= <-].
  pose proof (pow2_ge_0 (est - knownVolume self)) as Hsq. split; [lra|]. split.
  - intros Hzero. f_equal.
    assert ((est - knownVolume self) ^ 2 = 0) as H0 by lra.
    simpl in H0. rewrite Rmult_1_r in H0.
    apply Rmult_integral in H0. destruct H0; lra.
  - intros [= ->]. replace (knownVolume self - knownVolume self) with 0 by lra.
    simpl. lra.
Qed.

Lemma call_nonneg_and_zero_iff_on_target_witness :
  0 <= 0.5 * (1 * 1 + (2 * 1 + (3 * 1 + 0)) - 10) ^ 2.
Proof.
  exact (proj1 (call_nonneg_and_zero_iff_on_target volume3 [1; 1; 1] _ eq_refl)).
Defined.

(** X2. [estVol], [__call__] and [deriv] return for a model as long as the
    cell-volume vector and raise numpy's [ValueError] for any other model;
    [deriv2] without a direction returns whatever the model. *)
Theorem volume_methods_check_the_model_length (self : Volume) (m : list R) :
  (length m = length (vol (mesh self)) →
     ∃ est f g, estVol self m = Return est ∧ __call__ self m = Return f ∧
                deriv self m = Return g ∧ length g = length m) ∧
  (length m ≠ length (vol (mesh self)) →
     estVol self m = Raise (ValueError "shapes not aligned") ∧
     __call__ self m = Raise (ValueError "shapes not aligned") ∧
     deriv self m = Raise (ValueError "shapes not aligned")) ∧
  (∃ H, deriv2 self m None = Return (HessMat H) ∧
        Np.nrows H = length (vol (mesh self)) ∧
        Np.ncols H = length (vol (mesh self))).
Proof.
  split; [|split].
  - intros Hlen. eexists _, _, _.
    split; [unfold estVol; apply NpFacts.inner_same_length; congruence|].
    split; [apply call_value, Hlen|].
    split; [apply deriv_value, Hlen|].
    rewrite length_scale. congruence.
  - intros Hlen. unfold __call__, deriv, estVol, Np.inner.
    destruct (Nat.eqb_spec (length (vol (mesh self))) (length m));
      [congruence|]. repeat split; reflexivity.
  - eexists. split; [reflexivity|]. split; reflexivity.
Qed.

Lemma volume_methods_check_the_model_length_witness :
  (∃ est f g, estVol volume3 [1; 1; 1] = Return est ∧
              __call__ volume3 [1; 1; 1] = Return f ∧
              deriv volume3 [1; 1; 1] = Return g ∧ length g = 3%nat) ∧
  __call__ volume3 [1; 1] = Raise (ValueError "shapes not aligned").
Proof.
  destruct (volume_methods_check_the_model_length volume3 [1; 1; 1])
    as (Hok & _ & _).
  destruct (volume_methods_check_the_model_length volume3 [1; 1])
    as (_ & Hbad & _).
  split; [exact (Hok eq_refl)|].
  refine (proj1 (proj2 (Hbad _))). simpl. lia.
Defined.

(** X3. Along any step [dm] the objective is exactly quadratic in the
    values the class returns: [__call__(m + dm)] is [__call__(m)], minus the
    inner product of [deriv(m)] with [dm], plus half the inner product of
    [dm] with [deriv2(m, dm)]. *)
Theorem call_is_exactly_quadratic (self : Volume) (m dm : list R) :
  length m = length (vol (mesh self)) →
  length dm = length (vol (mesh self)) →
  ∃ f0 f1 g w,
    __call__ self m = Return f0 ∧
    __call__ self (Np.add m dm) = Return f1 ∧
    deriv self m = Return g ∧
    deriv2 self m (Some dm) = Return (HessVec w) ∧
    f1 = f0 - Np.sum (Np.mul g dm) + 0.5 * Np.sum (Np.mul dm w).
Proof.
  intros Hm Hdm. eexists _, _, _, _.
  split; [apply call_value, Hm|].
  split; [apply call_value; rewrite length_add; congruence|].
  split; [apply deriv_value, Hm|].
  split; [apply deriv2_value, Hdm|].
  rewrite (sum_mul_add _ _ _ Hm Hdm), sum_mul_scale_l.
  rewrite (sum_mul_comm dm), sum_mul_scale_l.
  replace 0.5 with (/ 2) by lra. field.
Qed.

Lemma call_is_exactly_quadratic_witness :
  ∃ f0 f1 g w,
    __call__ volume3 [1; 1; 1] = Return f0 ∧
    __call__ volume3 (Np.add [1; 1; 1] [0; 1; 0]) = Return f1 ∧
    deriv volume3 [1; 1; 1] = Return g ∧
    deriv2 volume3 [1; 1; 1] (Some [0; 1; 0]) = Return (HessVec w) ∧
    f1 = f0 - Np.sum (Np.mul g [0; 1; 0]) + 0.5 * Np.sum (Np.mul [0; 1; 0] w).
Proof.
  exact (call_is_exactly_quadratic volume3 [1; 1; 1] [0; 1; 0] eq_refl eq_refl).
Defined.

(** X4. A step [dm] changes what [deriv] returns by minus [deriv2(m, dm)]:
    [deriv(m + dm) = deriv(m) - deriv2(m, dm)]. *)
Theorem deriv_step_is_minus_deriv2 (self : Volume) (m dm : list R) :
  length m = length (vol (mesh self)) →
  length dm = length (vol (mesh self)) →
  ∃ g w,
    deriv self m = Return g ∧
    deriv2 self m (Some dm) = Return (HessVec w) ∧
    deriv self (Np.add m dm) = Return (Np.sub g w).
Proof.
  intros Hm Hdm. eexists _, _.
  split; [apply deriv_value, Hm|].
  split; [apply deriv2_value, Hdm|].
  rewrite deriv_value by (rewrite length_add; congruence).
  rewrite (sum_mul_add _ _ _ Hm Hdm), <- scale_sub. do 2 f_equal. lra.
Qed.

Lemma deriv_step_is_minus_deriv2_witness :
  ∃ g w,
    deriv volume3 [1; 1; 1] = Return g ∧
    deriv2 volume3 [1; 1; 1] (Some [0; 1; 0]) = Return (HessVec w) ∧
    deriv volume3 (Np.add [1; 1; 1] [0; 1; 0]) = Return (Np.sub g w).
Proof.
  exact (deriv_step_is_minus_deriv2 volume3 [1; 1; 1] [0; 1; 0] eq_refl eq_refl).
Defined.

(** X5. [deriv2] is linear in the direction:
    [deriv2(m, c * u + v) = c * deriv2(m, u) + deriv2(m, v)]. *)
Theorem deriv2_is_linear_in_direction (self : Volume) (m u v : list R) (c : R) :
  length u = length (vol (mesh self)) →
  length v = length (vol (mesh self)) →
  ∃ wu wv,
    deriv2 self m (Some u) = Return (HessVec wu) ∧
    deriv2 self m (Some v) = Return (HessVec wv) ∧
    deriv2 self m (Some (Np.add (Np.scale u c) v))
    = Return (HessVec (Np.add (Np.scale wu c) wv)).
Proof.
  intros Hu Hv. eexists _, _.
  split; [apply deriv2_value, Hu|].
  split; [apply deriv2_value, Hv|].
  rewrite deriv2_value by (rewrite length_add; rewrite ?length_scale; congruence).
  rewrite sum_mul_add by (rewrite ?length_scale; congruence).
  rewrite (sum_mul_comm _ (Np.scale u c)), sum_mul_scale_l, (sum_mul_comm u).
  rewrite <- scale_add_scale. do 3 f_equal. lra.
Qed.

Lemma deriv2_is_linear_in_direction_witness :
  ∃ wu wv,
    deriv2 volume3 [] (Some [1; 0; 0]) = Return (HessVec wu) ∧
    deriv2 volume3 [] (Some [0; 1; 0]) = Return (HessVec wv) ∧
    deriv2 volume3 [] (Some (Np.add (Np.scale [1; 0; 0] 2) [0; 1; 0]))
    = Return (HessVec (Np.add (Np.scale wu 2) wv)).
Proof.
  exact (deriv2_is_linear_in_direction volume3 [] [1; 0; 0] [0; 1; 0] 2
           eq_refl eq_refl).
Defined.

(** X6. The operator [deriv2] is symmetric and positive semidefinite: the
    inner product of [u] with [deriv2(m, v)] is that of [v] with
    [deriv2(m, u)], and the inner product of [v] with [deriv2(m, v)] is the
    square of [dot(vol, v)]. *)
Theorem deriv2_is_symmetric_positive_semidefinite (self : Volume) (m u v : list R) :
  length u = length (vol (mesh self)) →
  length v = length (vol (mesh self)) →
  ∃ wu wv,
    deriv2 self m (Some u) = Return (HessVec wu) ∧
    deriv2 self m (Some v) = Return (HessVec wv) ∧
    Np.sum (Np.mul u wv) = Np.sum (Np.mul v wu) ∧
    Np.sum (Np.mul v wv) = Np.sum (Np.mul (vol (mesh self)) v) ^ 2 ∧
    0 <= Np.sum (Np.mul v wv).
Proof.
  intros Hu Hv. eexists _, _.
  split; [apply deriv2_value, Hu|].
  split; [apply deriv2_value, Hv|].
  rewrite !(sum_mul_comm _ (Np.scale _ _)), !sum_mul_scale_l.
  rewrite (sum_mul_comm (vol (mesh self)) u), (sum_mul_comm (vol (mesh self)) v).
  split; [lra|]. split; [simpl; lra|].
  pose proof (pow2_ge_0 (Np.sum (Np.mul v (vol (mesh self))))) as Hsq.
  simpl in Hsq. lra.
Qed.

Lemma deriv2_is_symmetric_positive_semidefinite_witness :
  ∃ wu wv,
    deriv2 volume3 [] (Some [1; 0; 0]) = Return (HessVec wu) ∧
    deriv2 volume3 [] (Some [0; 1; 0]) = Return (HessVec wv) ∧
    Np.sum (Np.mul [1; 0; 0] wv) = Np.sum (Np.mul [0; 1; 0] wu) ∧
    Np.sum (Np.mul [0; 1; 0] wv) = Np.sum (Np.mul [1; 2; 3] [0; 1; 0]) ^ 2 ∧
    0 <= Np.sum (Np.mul [0; 1; 0] wv).
Proof.
  exact (deriv2_is_symmetric_positive_semidefinite volume3 [] [1; 0; 0] [0; 1; 0]
           eq_refl eq_refl).
Defined.

(** X16. Adding [t] times [deriv(m)] to the model scales the volume misfit
    by [1 - t * dot(vol, vol)]: the objective at [m + t * deriv(m)] is
    [(1 - t * dot(vol, vol))^2] times the objective at [m], so for
    [0 <= t * dot(vol, vol) <= 2] it does not increase. *)
Theorem stepping_along_deriv_shrinks_the_misfit (self : Volume) (m : list R) (t : R) :
  length m = length (vol (mesh self)) →
  let vv := Np.sum (Np.mul (vol (mesh self)) (vol (mesh self))) in
  ∃ f0 g f1,
    __call__ self m = Return f0 ∧
    deriv self m = Return g ∧
    __call__ self (Np.add m (Np.scale g t)) = Return f1 ∧
    f1 = (1 - t * vv) ^ 2 * f0 ∧
    (0 <= t * vv <= 2 → f1 <= f0).
Proof.
  intros Hm vv. eexists _, _, _.
  split; [apply call_value, Hm|].
  split; [apply deriv_value, Hm|].
  split; [apply call_value; rewrite length_add; rewrite ?length_scale; congruence|].
  rewrite sum_mul_add by (rewrite ?length_scale; congruence).
  rewrite (sum_mul_comm _ (Np.scale _ t)), !sum_mul_scale_l. fold vv.
  set (d := Np.sum (Np.mul (vol (mesh self)) m)).
  set (k := knownVolume self).
  assert (0.5 * (d + t * ((k - d) * vv) - k) ^ 2
          = (1 - t * vv) ^ 2 * (0.5 * (d - k) ^ 2)) as Heq
    by (replace 0.5 with (/ 2) by lra; field).
  split; [exact Heq|]. intros Ht. rewrite Heq.
  pose proof (pow2_ge_0 (d - k)) as Hsq.
  assert ((1 - t * vv) ^ 2 <= 1) as Hle by nra.
  nra.
Qed.

Lemma stepping_along_deriv_shrinks_the_misfit_witness :
  ∃ f0 g f1,
    __call__ volume3 [1; 1; 1] = Return f0 ∧
    deriv volume3 [1; 1; 1] = Return g ∧
    __call__ volume3 (Np.add [1; 1; 1] (Np.scale g (/ 14))) = Return f1 ∧
    f1 <= f0.
Proof.
  destruct (stepping_along_deriv_shrinks_the_misfit volume3 [1; 1; 1] (/ 14) eq_refl)
    as (f0 & g & f1 & H0 & Hg & H1 & _ & Hle).
  exists f0, g, f1. split; [exact H0|]. split; [exact Hg|]. split; [exact H1|].
  apply Hle. simpl. lra.
Defined.

End VolumeFacts.

(** ** Survey bookkeeping *)

Module SurveyFacts.
Import NewSurvey.

(** *** Uniqueness test *)

Lemma len_set_cons_in (x : nat) (l : list nat) :
  x ∈ l → len_set (x :: l) = len_set l.
Proof.
  intros Hin. unfold len_set. f_equal. simpl.
  apply (anti_symm (⊆)); [|set_solver].
  apply union_least; [|done].
  apply singleton_subseteq_l, elem_of_list_to_set, Hin.
Qed.

Lemma len_set_cons_notin (x : nat) (l : list nat) :
  x ∉ l → len_set (x :: l) = S (len_set l).
Proof.
  intros Hin. unfold len_set. simpl.
  rewrite size_union, size_singleton; [reflexivity|].
  apply disjoint_singleton_l. rewrite elem_of_list_to_set. exact Hin.
Qed.

Lemma len_set_le (l : list nat) : len_set l ≤ length l.
Proof.
  induction l as [|x l IH]; [reflexivity|].
  destruct (decide (x ∈ l)) as [Hin|Hin].
  - rewrite (len_set_cons_in _ _ Hin). simpl. lia.
  - rewrite (len_set_cons_notin _ _ Hin). simpl. lia.
Qed.

(** [len(set(value)) == len(value)] holds exactly when no object occurs
    twice in [value]. *)
Lemma len_set_NoDup (l : list nat) : len_set l = length l ↔ NoDup l.
Proof.
  split.
  - induction l as [|x l IH]; intros Hlen; [constructor|].
    destruct (decide (x ∈ l)) as [Hin|Hin].
    + rewrite (len_set_cons_in _ _ Hin) in Hlen.
      pose proof (len_set_le l). simpl in Hlen. lia.
    + rewrite (len_set_cons_notin _ _ Hin) in Hlen. simpl in Hlen.
      constructor; [exact Hin | apply IH; lia].
  - intros Hnd. unfold len_set. apply size_list_to_set, Hnd.
Qed.

(** *** The lookup table *)

Section order_table.
Context {A : Type} (key : A → Uuid).

Lemma setdefault_lookup (d : gmap Uuid nat) (u u' : Uuid) (i : nat) :
  setdefault d u i !! u' =
  match d !! u' with
  | Some j => Some j
  | None => if decide (u = u') then Some i else None
  end.
Proof.
  unfold setdefault. destruct (d !! u) as [j|] eqn:Hu.
  - destruct (d !! u') as [j'|] eqn:Hu'; [reflexivity|].
    case_decide; [congruence | reflexivity].
  - rewrite lookup_insert. case_decide as Heq.
    + subst u'. rewrite Hu. reflexivity.
    + destruct (d !! u'); reflexivity.
Qed.

(** The table sends an identifier to the position of the first element
    that carries it. *)
Lemma setdefault_each_lookup (k : nat) (value : list A) (d : gmap Uuid nat) (u : Uuid) :
  setdefault_each key (enumerate value k) d !! u =
  match d !! u with
  | Some j => Some j
  | None => (λ p, k + fst p) <$> list_find (λ x, key x = u) value
  end.
Proof.
  revert k d. induction value as [|x value IH]; intros k d.
  - cbn. destruct (d !! u); reflexivity.
  - change (setdefault_each key (enumerate (x :: value) k) d)
      with (setdefault_each key (enumerate value (S k)) (setdefault d (key x) k)).
    rewrite IH, setdefault_lookup.
    destruct (d !! u) as [j|]; [reflexivity|].
    cbn [list_find]. destruct (decide (key x = u)) as [Heq|Heq]; simpl.
    + f_equal. lia.
    + destruct (list_find (λ x0 : A, key x0 = u) value) as [[i y]|]; simpl;
        [f_equal; lia | reflexivity].
Qed.

End order_table.

Lemma rxList_validator_Return (self src : BaseSrc) (value : list Rx) :
  BaseSrc.set_rxList self value = Return src →
  NoDup ((λ rx, rx_oid (as_BaseRx rx)) <$> value) ∧
  src = {| src_oid := src_oid self; loc := loc self; rxList := value;
           src_uid := src_uid self;
           _rxOrder := Some (setdefault_each (λ rx, uid (as_BaseRx rx))
                                             (enumerate value 0) ∅) |}.
Proof.
  unfold BaseSrc.set_rxList, BaseSrc._rxList_validator.
  destruct (Nat.eqb_spec (len_set ((λ rx, rx_oid (as_BaseRx rx)) <$> value))
                         (length value)) as [Hlen|Hlen]; [|discriminate].
  intros [= <-]. split; [|reflexivity].
  apply len_set_NoDup. rewrite length_fmap. exact Hlen.
Qed.

Lemma srcList_validator_Return (self survey : BaseSurvey) (value : list BaseSrc) :
  BaseSurvey.set_srcList self value = Return survey →
  NoDup (src_oid <$> value) ∧
  survey = {| srcList := value;
              _sourceOrder := Some (setdefault_each src_uid (enumerate value 0) ∅) |}.
Proof.
  unfold BaseSurvey.set_srcList, BaseSurvey._srcList_validator.
  destruct (Nat.eqb_spec (len_set (src_oid <$> value)) (length value))
    as [Hlen|Hlen]; [|discriminate].
  intros [= <-]. split; [|reflexivity].
  apply len_set_NoDup. rewrite length_fmap. exact Hlen.
Qed.

(** *** Index lookups *)

Lemma require_uids_Return (msg : string) (xs : list pyobject) (us : list Uuid) :
  Forall2 (λ x u, uid_attr x = Some u) xs us →
  require_uids msg xs = Return us.
Proof.
  induction 1 as [|x u xs us Hx _ IH]; [reflexivity|].
  simpl. rewrite Hx, IH. reflexivity.
Qed.

Lemma require_uids_cases (msg : string) (xs : list pyobject) :
  (∃ us, require_uids msg xs = Return us ∧
         Forall2 (λ x u, uid_attr x = Some u) xs us) ∨
  (require_uids msg xs = Raise (KeyError msg) ∧
   Exists (λ x, uid_attr x = None) xs).
Proof.
  induction xs as [|x xs IH]; simpl.
  - left. exists []. split; [reflexivity | constructor].
  - destruct (uid_attr x) as [u|] eqn:Hu.
    + destruct IH as [(us & -> & Hus)|[-> Hex]].
      * left. exists (u :: us). split; [reflexivity|]. constructor; assumption.
      * right. split; [reflexivity|]. apply Exists_cons_tl, Hex.
    + right. split; [reflexivity|]. apply Exists_cons_hd, Hu.
Qed.

Lemma get_all_Some (attr : string) (d : gmap Uuid nat) (us : list Uuid) :
  get_all attr (Some d) us = Return ((λ u, d !! u) <$> us).
Proof. destruct us; reflexivity. Qed.

Lemma all_found_Some (inds : list (option nat)) (l : list nat) :
  Forall2 (λ o i, o = Some i) inds l → all_found inds = Some l.
Proof.
  induction 1 as [|o i inds l -> _ IH]; [reflexivity|].
  simpl. rewrite IH. reflexivity.
Qed.

Lemma all_found_None (inds : list (option nat)) :
  None ∈ inds → all_found inds = None.
Proof.
  induction inds as [|[i|] inds IH]; intros Hin.
  - by apply elem_of_nil in Hin.
  - apply elem_of_cons in Hin as [Hin|Hin]; [discriminate|].
    simpl. rewrite (IH Hin). reflexivity.
  - reflexivity.
Qed.

(** C7. Whatever the model and the fields, [dpred] raises an exception,
    never returns, and the message of the exception names
    [simulation.dpred], the method to use instead. *)
Theorem dpred_always_raises {F : Type} (self : BaseSurvey) (m : list R)
    (f : option F) :
  ∃ msg, BaseSurvey.dpred self m f = Raise (Exception msg) ∧
         (∀ d, BaseSurvey.dpred self m f ≠ Return d) ∧
         ∃ pre suf, msg = pre +:+ "simulation.dpred" +:+ suf.
Proof.
  eexists. split; [reflexivity|]. split; [discriminate|].
  exists "Survey no longer has the dpred method. Please use ", " instead".
  reflexivity.
Qed.

(** *** Data counts *)

Lemma int64_exact (z : Z) : (- 2 ^ 63 <= z < 2 ^ 63)%Z → NpInt.int64 z = z.
Proof.
  intros Hz. unfold NpInt.int64.
  rewrite Z.mod_small by lia. lia.
Qed.

Lemma mapM_Return {A B : Type} (f : A → result B) (xs : list A) (ys : list B) :
  Forall2 (λ x y, f x = Return y) xs ys → mapM f xs = Return ys.
Proof.
  induction 1 as [|x y xs ys Hx _ IH]; [reflexivity|].
  simpl. rewrite Hx, IH. reflexivity.
Qed.

Lemma Rx_nD_count (rx : Rx) :
  length (shape (locs (as_BaseRx rx))) = 2 → Rx_nD rx = Return (Rx_count rx).
Proof.
  destruct rx as [rx|rx]; simpl; unfold BaseTimeRx.nD, BaseRx.nD, rows;
    destruct (shape (locs _)) as [|n sh]; simpl; try discriminate; reflexivity.
Qed.

Lemma Rx_count_nonneg (rx : Rx) : (0 <= Rx_count rx)%Z.
Proof. destruct rx; simpl; lia. Qed.

Lemma total_nonneg (l : list Z) : Forall (λ z, 0 <= z)%Z l → (0 <= total l)%Z.
Proof. induction 1; simpl; lia. Qed.

Lemma total_elem_le (l : list Z) (z : Z) :
  Forall (λ z, 0 <= z)%Z l → z ∈ l → (z <= total l)%Z.
Proof.
  induction 1 as [|y l Hy Hl IH]; intros Hin.
  - by apply elem_of_nil in Hin.
  - pose proof (total_nonneg l Hl).
    apply elem_of_cons in Hin as [->|Hin]; simpl; [lia|].
    specialize (IH Hin). lia.
Qed.

Lemma Src_count_nonneg (src : BaseSrc) : (0 <= Src_count src)%Z.
Proof.
  apply total_nonneg, Forall_fmap, Forall_forall.
  intros rx _. apply Rx_count_nonneg.
Qed.

Lemma BaseSrc_vnD_counts (src : BaseSrc) :
  (∀ rx, rx ∈ rxList src → length (shape (locs (as_BaseRx rx))) = 2) →
  BaseSrc.vnD src = Return (Rx_count <$> rxList src).
Proof.
  intros H2d. unfold BaseSrc.vnD. apply mapM_Return, Forall2_fmap_r.
  apply Forall_Forall2_diag, Forall_forall. intros rx Hrx.
  apply Rx_nD_count, H2d, Hrx.
Qed.

Lemma BaseSrc_nD_count (src : BaseSrc) :
  (∀ rx, rx ∈ rxList src → length (shape (locs (as_BaseRx rx))) = 2) →
  (Src_count src < 2 ^ 63)%Z →
  BaseSrc.nD src = Return (Src_count src).
Proof.
  intros H2d Hsmall. unfold BaseSrc.nD.
  rewrite (BaseSrc_vnD_counts _ H2d), bind_Return. unfold NpInt.sum.
  f_equal. apply int64_exact. pose proof (Src_count_nonneg src).
  unfold Src_count, total in *. lia.
Qed.

(** *** Receiver locations *)

Lemma omap_lookup_seq {A : Type} (x : list A) :
  omap (λ j, x !! j) (seq 0 (length x)) = x.
Proof.
  induction x as [|a x IH]; [reflexivity|].
  simpl. f_equal. rewrite <- fmap_S_seq.
  etransitivity; [|exact IH].
  apply list_omap_ext, Forall2_fmap_l, Forall_Forall2_diag, Forall_forall.
  intros j _. reflexivity.
Qed.

Lemma multi_indices_row (d : nat) :
  multi_indices [1; d] = (λ j, [0; j]) <$> seq 0 d.
Proof.
  unfold multi_indices. simpl. rewrite app_nil_r.
  generalize (seq 0 d) as js. intros js.
  induction js as [|j js IH]; [reflexivity|].
  simpl. f_equal. exact IH.
Qed.

(** The transpose of a column is the row with the same elements. *)
Lemma T_column {A : Type} (x : list A) :
  T (NdArray [length x; 1] x) = NdArray [1; length x] x.
Proof.
  unfold T. cbn [shape data].
  change (rev [length x; 1]) with [1; length x].
  rewrite multi_indices_row. f_equal.
  etransitivity; [|exact (omap_lookup_seq x)].
  apply list_omap_ext, Forall2_fmap_l, Forall_Forall2_diag, Forall_forall.
  intros j _. simpl. unfold flat_index. simpl. f_equal. lia.
Qed.

Lemma validate_two_dimensional (value v : ndarray R) :
  RxLocationArray.validate value = Return v →
  ∃ r c, shape v = [r; c].
Proof.
  unfold RxLocationArray.validate.
  destruct (if Nat.eqb (length (shape value)) 1
            then match mkvc (data value) 2 with
                 | Some col => Return (T col)
                 | None => Raise (AttributeError "T")
                 end
            else Return value) as [w|e]; [|discriminate].
  rewrite bind_Return. unfold Array_validate.
  destruct (Nat.eqb_spec (length (shape w)) 2) as [Hlen|Hlen]; [|discriminate].
  intros [= <-]. destruct (shape w) as [|r [|c [|? ?]]]; try discriminate.
  eauto.
Qed.

Lemma validate_vector (value : ndarray R) (d : nat) :
  shape value = [d] → length (data value) = d →
  RxLocationArray.validate value = Return (NdArray [1; d] (data value)).
Proof.
  intros Hshape <-. unfold RxLocationArray.validate.
  rewrite Hshape. simpl. rewrite T_column. reflexivity.
Qed.

(** C10. The [nD] of a [BaseRx] is the number of rows of the locations the
    validation stored, both after construction and after assignment. A
    one-dimensional locations array of length [d] is accepted: it is stored
    as the single row of shape 1 by [d] with the same elements, and the
    receiver has [nD] equal to 1. *)
Theorem nD_is_row_count_of_validated_locs :
  (∀ oid uid value rx,
     BaseRx.__init__ oid uid value = Return rx →
     ∃ r c, shape (locs rx) = [r; c] ∧ BaseRx.nD rx = Return (Z.of_nat r)) ∧
  (∀ self value rx,
     BaseRx.set_locs self value = Return rx →
     ∃ r c, shape (locs rx) = [r; c] ∧ BaseRx.nD rx = Return (Z.of_nat r)) ∧
  (∀ oid uid value d,
     shape value = [d] → length (data value) = d →
     ∃ rx, BaseRx.__init__ oid uid value = Return rx ∧
           locs rx = NdArray [1; d] (data value) ∧
           BaseRx.nD rx = Return 1%Z).
Proof.
  split; [|split].
  - intros oid uid value rx. unfold BaseRx.__init__.
    destruct (RxLocationArray.validate value) as [v|e] eqn:Hv; [|discriminate].
    intros [= <-]. destruct (validate_two_dimensional _ _ Hv) as (r & c & Hs).
    exists r, c. unfold BaseRx.nD. simpl. rewrite Hs. split; reflexivity.
  - intros self value rx. unfold BaseRx.set_locs.
    destruct (RxLocationArray.validate value) as [v|e] eqn:Hv; [|discriminate].
    intros [= <-]. destruct (validate_two_dimensional _ _ Hv) as (r & c & Hs).
    exists r, c. unfold BaseRx.nD. simpl. rewrite Hs. split; reflexivity.
  - intros oid uid value d Hshape Hdata. unfold BaseRx.__init__.
    rewrite (validate_vector _ _ Hshape Hdata), bind_Return.
    eexists. split; [reflexivity|]. split; reflexivity.
Qed.

Lemma nD_is_row_count_of_validated_locs_witness :
  ∃ rx, BaseRx.__init__ 10 100%N (NdArray [3] [0; 1; 2]%R) = Return rx ∧
        locs rx = NdArray [1; 3] [0; 1; 2]%R ∧
        BaseRx.nD rx = Return 1%Z.
Proof.
  exact (proj2 (proj2 nD_is_row_count_of_validated_locs)
           10 100%N (NdArray [3] [0; 1; 2]%R) 3 eq_refl eq_refl).
Defined.

(** *** The projection cache *)

(** The key under which [getP] looks the projection up. *)
Lemma getP_cases (self : BaseRx) (mesh : Mesh) (g : option string) :
  let key := (mesh_oid mesh, default (projGLoc self) g) in
  let o := BaseRx.getP self mesh g in
  (∃ P, _Ps self !! key = Some P ∧ o = BaseRx.Outcome (Return P) self []) ∨
  (∃ e, _Ps self !! key = None ∧ o = BaseRx.Outcome (Raise e) self []) ∨
  (∃ P, _Ps self !! key = None ∧ storeProjections self = false ∧
        o = BaseRx.Outcome (Return P) self [key]) ∨
  (∃ P, _Ps self !! key = None ∧ storeProjections self = true ∧
        o = BaseRx.Outcome (Return P) (BaseRx.store self key P) [key]).
Proof.
  intros key o. subst key o. unfold BaseRx.getP.
  destruct g as [g|]; simpl;
    (match goal with
     | |- context [_Ps self !! ?k] => destruct (_Ps self !! k) as [P|] eqn:Hk
     end; [left; eauto|]; right;
     match goal with
     | |- context [getInterpolationMat ?m ?l ?g] =>
         destruct (getInterpolationMat m l g) as [P|e]
     end; [|left; eauto]; right;
     destruct (storeProjections self) eqn:Hstore; [right|left]; eauto).
Qed.

(** While projections are stored, a run of calls builds a key at most once,
    and never a key the cache held at the start. *)
Lemma getP_run_builds_once (calls : list (Mesh * option string)) (self : BaseRx) :
  storeProjections self = true →
  NoDup (snd (BaseRx.getP_run self calls)) ∧
  ∀ k, k ∈ snd (BaseRx.getP_run self calls) → _Ps self !! k = None.
Proof.
  revert self. induction calls as [|[mesh g] calls IH]; intros self Hstore.
  - simpl. split; [constructor|]. intros k Hk. by apply elem_of_nil in Hk.
  - simpl.
    destruct (getP_cases self mesh g)
      as [(P & Hk & ->)|[(e & Hk & ->)|[(P & Hk & Hs & ->)|(P & Hk & Hs & ->)]]];
      simpl; try (exact (IH self Hstore)); [congruence|].
    destruct (IH (BaseRx.store self (mesh_oid mesh, default (projGLoc self) g) P)
                 Hstore) as [Hnd Hfresh].
    assert (∀ k, k ∈ snd (BaseRx.getP_run
                   (BaseRx.store self (mesh_oid mesh, default (projGLoc self) g) P)
                   calls) →
                 k ≠ (mesh_oid mesh, default (projGLoc self) g) ∧
                 _Ps self !! k = None) as Hlater.
    { intros k Hin. specialize (Hfresh k Hin). simpl in Hfresh.
      rewrite lookup_insert in Hfresh. case_decide; [discriminate|].
      split; [congruence | exact Hfresh]. }
    split.
    + apply NoDup_cons. split; [|exact Hnd].
      intros Hin. by destruct (Hlater _ Hin).
    + intros k Hin. apply elem_of_cons in Hin as [->|Hin]; [exact Hk|].
      by destruct (Hlater _ Hin).
Qed.

(** C9. [getP] looks the projection up under the key made of the mesh and
    the grid location (the receiver's own when none is given). A cached
    matrix is returned as stored, nothing is built and the receiver is left
    as it was. A matrix that is built is stored under the key when
    [storeProjections] is true, so that over any run of calls every key is
    built at most once; when [storeProjections] is false the cache is left
    unchanged. No attribute other than [_Ps] changes. *)
Theorem getP_is_memoized (self : BaseRx) (mesh : Mesh) (g : option string) :
  let key := (mesh_oid mesh, default (projGLoc self) g) in
  let o := BaseRx.getP self mesh g in
  (∀ P, _Ps self !! key = Some P → o = BaseRx.Outcome (Return P) self []) ∧
  (∀ P, storeProjections self = true → BaseRx.value o = Return P →
        _Ps (BaseRx.receiver o) !! key = Some P) ∧
  (∀ calls, storeProjections self = true →
            NoDup (snd (BaseRx.getP_run self calls))) ∧
  (storeProjections self = false → _Ps (BaseRx.receiver o) = _Ps self) ∧
  (rx_oid (BaseRx.receiver o) = rx_oid self ∧
   locs (BaseRx.receiver o) = locs self ∧
   projGLoc (BaseRx.receiver o) = projGLoc self ∧
   storeProjections (BaseRx.receiver o) = storeProjections self ∧
   uid (BaseRx.receiver o) = uid self).
Proof.
  intros key o.
  destruct (getP_cases self mesh g)
    as [(P & Hk & Ho)|[(e & Hk & Ho)|[(P & Hk & Hs & Ho)|(P & Hk & Hs & Ho)]]];
    fold key in Hk, Ho; fold o in Ho; rewrite Ho; simpl;
    (split; [intros P' HP'; congruence|]);
    (split; [intros P' Hs' [= <-]; try congruence;
             try apply lookup_insert_eq|]);
    (split; [intros calls Hs'; apply getP_run_builds_once, Hs'|]);
    (split; [intros Hs'; congruence|]); auto.
Qed.

Lemma getP_is_memoized_witness :
  NoDup (snd (BaseRx.getP_run Samples.rxA Samples.getP_calls)) ∧
  _Ps (BaseRx.receiver (BaseRx.getP Samples.rxC Volume.mesh3 None))
  = _Ps Samples.rxC.
Proof.
  destruct (getP_is_memoized Samples.rxA Volume.mesh3 None)
    as (_ & _ & Hrun & _).
  destruct (getP_is_memoized Samples.rxC Volume.mesh3 None)
    as (_ & _ & _ & Hoff & _).
  split; [exact (Hrun Samples.getP_calls eq_refl) | exact (Hoff eq_refl)].
Defined.

(** *** The sample survey, evaluated *)

Example sample_getSourceIndex :
  BaseSurvey.getSourceIndex Samples.survey
    (AList [Src_object Samples.srcB; Src_object Samples.srcA]) = Return [1; 0].
Proof. vm_compute. reflexivity. Qed.

Example sample_getSourceIndex_absent :
  BaseSurvey.getSourceIndex Samples.survey
    (AList [Src_object Samples.srcB; PyObject 99 (Some 999%N)])
  = Raise (KeyError "Some of the sources specified are not in this survey. ").
Proof. vm_compute. reflexivity. Qed.

Example sample_getReceiverIndex_no_uid :
  BaseSrc.getReceiverIndex Samples.srcA
    (AList [Rx_object (IsBaseRx Samples.rxA); PyObject 98 None])
  = Raise (KeyError "Source does not have a uid: ").
Proof. vm_compute. reflexivity. Qed.

Example sample_nD : BaseSurvey.nD Samples.survey = Return 12%Z.
Proof. vm_compute. reflexivity. Qed.

Example sample_getP_run :
  snd (BaseRx.getP_run Samples.rxA Samples.getP_calls) = [(0, "CC"); (0, "F")].
Proof. vm_compute. reflexivity. Qed.

Example sample_getP_run_not_stored :
  snd (BaseRx.getP_run Samples.rxC Samples.getP_calls)
  = [(0, "F"); (0, "F"); (0, "CC"); (0, "F")].
Proof. vm_compute. reflexivity. Qed.

(** *** Further properties of the receiver locations *)

(** X7. The validation of receiver locations lets a two-dimensional array
    through unchanged, turns a vector into the single row of its elements,
    and rejects every other array; what it returns validates to itself. *)
Theorem validate_is_idempotent (value : ndarray R) :
  (length (shape value) = 2 → RxLocationArray.validate value = Return value) ∧
  (length (shape value) = 1 →
     RxLocationArray.validate value
     = Return (NdArray [1; length (data value)] (data value))) ∧
  (length (shape value) ≠ 1 → length (shape value) ≠ 2 →
     RxLocationArray.validate value
     = Raise (ValidationError "the array has the wrong number of dimensions")) ∧
  (∀ v, RxLocationArray.validate value = Return v →
        RxLocationArray.validate v = Return v).
Proof.
  assert (∀ a : ndarray R, length (shape a) = 2 →
            RxLocationArray.validate a = Return a) as Htwo.
  { intros a Ha. unfold RxLocationArray.validate, Array_validate.
    rewrite Ha. simpl. rewrite Ha. reflexivity. }
  split; [apply Htwo|]. split; [|split].
  - intros Hone. unfold RxLocationArray.validate. rewrite Hone. simpl.
    rewrite T_column. reflexivity.
  - intros Hn1 Hn2. unfold RxLocationArray.validate, Array_validate.
    destruct (Nat.eqb_spec (length (shape value)) 1); [contradiction|].
    rewrite bind_Return.
    destruct (Nat.eqb_spec (length (shape value)) 2); [contradiction|].
    reflexivity.
  - intros v Hv. apply Htwo.
    destruct (validate_two_dimensional _ _ Hv) as (r & c & ->). reflexivity.
Qed.

Lemma validate_is_idempotent_witness :
  RxLocationArray.validate Samples.locs2 = Return Samples.locs2 ∧
  RxLocationArray.validate (NdArray [3] [0; 1; 2]%R)
  = Return (NdArray [1; 3] [0; 1; 2]%R) ∧
  RxLocationArray.validate (NdArray [1; 3] [0; 1; 2]%R)
  = Return (NdArray [1; 3] [0; 1; 2]%R) ∧
  RxLocationArray.validate (NdArray [] [0]%R)
  = Raise (ValidationError "the array has the wrong number of dimensions").
Proof.
  split; [exact (proj1 (validate_is_idempotent Samples.locs2) eq_refl)|].
  split; [exact (proj1 (proj2 (validate_is_idempotent (NdArray [3] [0; 1; 2]%R)))
                   eq_refl)|].
  split.
  - apply (proj2 (proj2 (proj2 (validate_is_idempotent (NdArray [3] [0; 1; 2]%R))))).
    exact (proj1 (proj2 (validate_is_idempotent (NdArray [3] [0; 1; 2]%R))) eq_refl).
  - apply (proj1 (proj2 (proj2 (validate_is_idempotent (NdArray [] [0]%R)))));
      simpl; lia.
Defined.

(** *** Further properties of the projection cache *)

Lemma getP_run_frame (calls : list (Mesh * option string)) (self : BaseRx) :
  let r := BaseRx.getP_run self calls in
  (∀ k P, _Ps self !! k = Some P → _Ps (fst r) !! k = Some P) ∧
  (∀ k, _Ps self !! k = None → is_Some (_Ps (fst r) !! k) → k ∈ snd r) ∧
  rx_oid (fst r) = rx_oid self ∧ locs (fst r) = locs self ∧
  projGLoc (fst r) = projGLoc self ∧
  storeProjections (fst r) = storeProjections self ∧ uid (fst r) = uid self.
Proof.
  revert self. induction calls as [|[mesh g] calls IH]; intros self.
  - simpl. split; [auto|]. split; [|auto].
    intros k Hk [P HP]. congruence.
  - simpl.
    destruct (getP_cases self mesh g)
      as [(P & Hk & ->)|[(e & Hk & ->)|[(P & Hk & Hs & ->)|(P & Hk & Hs & ->)]]];
      simpl; try exact (IH self).
    + destruct (IH self) as (Hkeep & Hnew & Hrest).
      split; [exact Hkeep|]. split; [|exact Hrest].
      intros k Hnone Hsome. apply elem_of_cons. right. exact (Hnew k Hnone Hsome).
    + destruct (IH (BaseRx.store self (mesh_oid mesh, default (projGLoc self) g) P))
        as (Hkeep & Hnew & Hrest). simpl in Hkeep, Hnew, Hrest.
      split; [|split; [|exact Hrest]].
      * intros k Q HQ. apply Hkeep. rewrite lookup_insert_ne; [exact HQ|].
        intros <-. congruence.
      * intros k Hnone Hsome. apply elem_of_cons.
        destruct (decide (k = (mesh_oid mesh, default (projGLoc self) g)))
          as [->|Hne]; [left; reflexivity|right].
        apply Hnew; [|exact Hsome]. rewrite lookup_insert_ne; [exact Hnone|].
        congruence.
Qed.

(** X8. Over any run of [getP] calls the cache only grows: an entry it
    holds is never removed or replaced, every entry that appears belongs to
    a key that was built during the run, and no attribute of the receiver
    other than [_Ps] changes. *)
Theorem getP_run_only_adds_entries (self : BaseRx)
    (calls : list (Mesh * option string)) :
  let r := BaseRx.getP_run self calls in
  (∀ k P, _Ps self !! k = Some P → _Ps (fst r) !! k = Some P) ∧
  (∀ k, _Ps self !! k = None → is_Some (_Ps (fst r) !! k) → k ∈ snd r) ∧
  rx_oid (fst r) = rx_oid self ∧ locs (fst r) = locs self ∧
  projGLoc (fst r) = projGLoc self ∧
  storeProjections (fst r) = storeProjections self ∧ uid (fst r) = uid self.
Proof. exact (getP_run_frame calls self). Qed.

Lemma getP_run_only_adds_entries_witness :
  (0, "F") ∈ snd (BaseRx.getP_run Samples.rxA Samples.getP_calls).
Proof.
  apply (proj1 (proj2 (getP_run_only_adds_entries Samples.rxA Samples.getP_calls))).
  - reflexivity.
  - vm_compute. eexists. reflexivity.
Defined.

(** X9. The cache is not tied to the locations: once a projection is
    stored, assigning other locations to the receiver leaves it in place,
    and [getP] keeps returning the stored matrix without asking the mesh. *)
Theorem set_locs_keeps_cached_projection (self rx' : BaseRx) (mesh : Mesh)
    (g : option string) (P : Np.matrix) (value : ndarray R) :
  storeProjections self = true →
  BaseRx.value (BaseRx.getP self mesh g) = Return P →
  BaseRx.set_locs (BaseRx.receiver (BaseRx.getP self mesh g)) value = Return rx' →
  BaseRx.getP rx' mesh g = BaseRx.Outcome (Return P) rx' [].
Proof.
  intros Hstore Hval Hset.
  assert (_Ps (BaseRx.receiver (BaseRx.getP self mesh g))
            !! (mesh_oid mesh, default (projGLoc self) g) = Some P
          ∧ projGLoc (BaseRx.receiver (BaseRx.getP self mesh g)) = projGLoc self)
    as [Hcached Hloc].
  { destruct (getP_cases self mesh g)
      as [(Q & Hk & Ho)|[(e & Hk & Ho)|[(Q & Hk & Hs & Ho)|(Q & Hk & Hs & Ho)]]];
      rewrite Ho in Hval |- *; simpl in Hval |- *;
      try discriminate; try congruence; injection Hval as ->.
    - split; [exact Hk | reflexivity].
    - split; [apply lookup_insert_eq | reflexivity]. }
  clear Hval. set (rx0 := BaseRx.receiver (BaseRx.getP self mesh g)) in *.
  clearbody rx0. unfold BaseRx.set_locs in Hset.
  destruct (RxLocationArray.validate value) as [v|e]; [|discriminate].
  rewrite bind_Return in Hset. injection Hset as <-.
  unfold BaseRx.getP. cbn [_Ps projGLoc].
  rewrite Hloc.
  replace (match g with Some g0 => g0 | None => projGLoc self end)
    with (default (projGLoc self) g) by (destruct g; reflexivity).
  rewrite Hcached. reflexivity.
Qed.

Lemma set_locs_keeps_cached_projection_witness :
  ∃ P rx',
    BaseRx.value (BaseRx.getP Samples.rxA (Samples.row_mesh 5) None) = Return P ∧
    BaseRx.set_locs (BaseRx.receiver (BaseRx.getP Samples.rxA (Samples.row_mesh 5) None))
                    (NdArray [3] [0; 1; 2]%R) = Return rx' ∧
    BaseRx.getP rx' (Samples.row_mesh 5) None = BaseRx.Outcome (Return P) rx' [] ∧
    getInterpolationMat (Samples.row_mesh 5) (locs rx') "CC" ≠ Return P.
Proof.
  eexists _, _. split; [reflexivity|]. split; [reflexivity|]. split.
  - apply (set_locs_keeps_cached_projection Samples.rxA _ (Samples.row_mesh 5)
             None _ (NdArray [3] [0; 1; 2]%R));
      reflexivity.
  - simpl. unfold rows. simpl. intros [=].
Defined.

(** X10. With [storeProjections] false nothing is remembered: a run of
    calls leaves the receiver exactly as it was, and every call whose key
    is not in the cache builds its matrix again. *)
Theorem getP_without_storing_rebuilds (self : BaseRx)
    (calls : list (Mesh * option string)) :
  storeProjections self = false →
  fst (BaseRx.getP_run self calls) = self ∧
  snd (BaseRx.getP_run self calls)
  = omap (λ c : Mesh * option string,
            let key := (mesh_oid (fst c), default (projGLoc self) (snd c)) in
            match _Ps self !! key with
            | Some _ => None
            | None =>
                match getInterpolationMat (fst c) (locs self) (snd key) with
                | Return _ => Some key
                | Raise _ => None
                end
            end) calls.
Proof.
  intros Hstore. induction calls as [|[mesh g] calls [IH1 IH2]];
    [split; reflexivity|].
  simpl. unfold BaseRx.getP.
  replace (match g with Some g0 => g0 | None => projGLoc self end)
    with (default (projGLoc self) g) by (destruct g; reflexivity).
  destruct (_Ps self !! (mesh_oid mesh, default (projGLoc self) g)) as [P|];
    simpl; [split; assumption|].
  destruct (getInterpolationMat mesh (locs self) (default (projGLoc self) g))
    as [P|e]; simpl; [|split; assumption].
  rewrite Hstore, IH1, IH2. split; reflexivity.
Qed.

Lemma getP_without_storing_rebuilds_witness :
  fst (BaseRx.getP_run Samples.rxC Samples.getP_calls) = Samples.rxC.
Proof.
  exact (proj1 (getP_without_storing_rebuilds Samples.rxC Samples.getP_calls
                  eq_refl)).
Defined.

(** *** Further properties of the lookup tables *)

(** The position of the first element of [value] that carries [u]. *)
Lemma setdefault_each_first {A : Type} (key : A → Uuid) (value : list A)
    (u : Uuid) (i : nat) :
  setdefault_each key (enumerate value 0) ∅ !! u = Some i ↔
  (∃ x, value !! i = Some x ∧ key x = u) ∧
  (∀ j y, value !! j = Some y → j < i → key y ≠ u).
Proof.
  rewrite setdefault_each_lookup, lookup_empty.
  destruct (list_find (λ x, key x = u) value) as [[j y]|] eqn:Hfind; simpl.
  - apply list_find_Some in Hfind as (Hy & Hkey & Hfirst). split.
    + intros [= <-]. split; [eauto | exact Hfirst].
    + intros [(x & Hx & Hxu) Hmin]. f_equal.
      destruct (Nat.lt_total i j) as [Hlt|[Heq|Hlt]]; [|exact (eq_sym Heq)|].
      * exfalso. exact (Hfirst i x Hx Hlt Hxu).
      * exfalso. exact (Hmin j y Hy Hlt Hkey).
  - apply list_find_None in Hfind. rewrite Forall_forall in Hfind. split.
    + discriminate.
    + intros [(x & Hx & Hxu) _]. exfalso.
      apply (Hfind x); [eapply list_elem_of_lookup_2; exact Hx | exact Hxu].
Qed.

Lemma set_rxList_Return_iff (self : BaseSrc) (value : list Rx) :
  NoDup ((λ rx, rx_oid (as_BaseRx rx)) <$> value) ↔
  ∃ src, BaseSrc.set_rxList self value = Return src.
Proof.
  split.
  - intros Hnd. unfold BaseSrc.set_rxList, BaseSrc._rxList_validator.
    apply len_set_NoDup in Hnd. rewrite length_fmap in Hnd.
    rewrite Hnd, Nat.eqb_refl. eexists. reflexivity.
  - intros [src Hset]. exact (proj1 (rxList_validator_Return _ _ _ Hset)).
Qed.

Lemma set_srcList_Return_iff (self : BaseSurvey) (value : list BaseSrc) :
  NoDup (src_oid <$> value) ↔
  ∃ survey, BaseSurvey.set_srcList self value = Return survey.
Proof.
  split.
  - intros Hnd. unfold BaseSurvey.set_srcList, BaseSurvey._srcList_validator.
    apply len_set_NoDup in Hnd. rewrite length_fmap in Hnd.
    rewrite Hnd, Nat.eqb_refl. eexists. reflexivity.
  - intros [survey Hset]. exact (proj1 (srcList_validator_Return _ _ _ Hset)).
Qed.

(** X11. An assignment of a receiver list or of a source list succeeds
    exactly when no object occurs twice in the list, whatever the uids are.
    The table it builds sends a uid to the first position at which an
    element carries it, and holds nothing else. *)
Theorem assignment_succeeds_iff_no_object_twice :
  (∀ (self : BaseSrc) (value : list Rx),
     (NoDup ((λ rx, rx_oid (as_BaseRx rx)) <$> value) ↔
      ∃ src, BaseSrc.set_rxList self value = Return src) ∧
     (∀ src, BaseSrc.set_rxList self value = Return src →
        ∃ d, _rxOrder src = Some d ∧
             ∀ u i, d !! u = Some i ↔
                    (∃ rx, value !! i = Some rx ∧ uid (as_BaseRx rx) = u) ∧
                    (∀ j rx, value !! j = Some rx → j < i →
                             uid (as_BaseRx rx) ≠ u))) ∧
  (∀ (self : BaseSurvey) (value : list BaseSrc),
     (NoDup (src_oid <$> value) ↔
      ∃ survey, BaseSurvey.set_srcList self value = Return survey) ∧
     (∀ survey, BaseSurvey.set_srcList self value = Return survey →
        ∃ d, _sourceOrder survey = Some d ∧
             ∀ u i, d !! u = Some i ↔
                    (∃ src, value !! i = Some src ∧ src_uid src = u) ∧
                    (∀ j src, value !! j = Some src → j < i → src_uid src ≠ u))).
Proof.
  split.
  - intros self value. split; [apply set_rxList_Return_iff|].
    intros src Hset. apply rxList_validator_Return in Hset as [_ ->].
    eexists. split; [reflexivity|]. intros u i.
    apply (setdefault_each_first (λ rx, uid (as_BaseRx rx))).
  - intros self value. split; [apply set_srcList_Return_iff|].
    intros survey Hset. apply srcList_validator_Return in Hset as [_ ->].
    eexists. split; [reflexivity|]. intros u i.
    apply (setdefault_each_first src_uid).
Qed.

Lemma assignment_succeeds_iff_no_object_twice_witness :
  (∃ src, BaseSrc.set_rxList (Samples.new_src 20 200%N) Samples.receivers
          = Return src) ∧
  (∃ d, _sourceOrder Samples.survey = Some d ∧
        ∀ u i, d !! u = Some i ↔
               (∃ src, [Samples.srcA; Samples.srcB] !! i = Some src ∧
                       src_uid src = u) ∧
               (∀ j src, [Samples.srcA; Samples.srcB] !! j = Some src → j < i →
                         src_uid src ≠ u)).
Proof.
  destruct assignment_succeeds_iff_no_object_twice as [Hsrc Hsurvey].
  split.
  - apply (proj1 (Hsrc (Samples.new_src 20 200%N) Samples.receivers)).
    apply (bool_decide_unpack _). vm_compute. exact I.
  - apply (proj2 (Hsurvey Samples.new_survey [Samples.srcA; Samples.srcB])).
    vm_compute. reflexivity.
Defined.

(** *** Further properties of the index lookups *)

Lemma all_found_inv (inds : list (option nat)) (l : list nat) :
  all_found inds = Some l → Forall2 (λ o i, o = Some i) inds l.
Proof.
  revert l. induction inds as [|[i|] inds IH]; intros l; simpl.
  - intros [= <-]. constructor.
  - destruct (all_found inds) as [l'|]; simpl; [|discriminate].
    intros [= <-]. constructor; [reflexivity | apply IH; reflexivity].
  - discriminate.
Qed.

Section lookup_sound.
Context {A : Type} (key : A → Uuid) (value : list A).
Context (msg1 attr msg2 : string).

Lemma returned_positions_match (xs : list pyobject) (inds : list nat) :
  (require_uids msg1 xs ≫= λ us,
   get_all attr (Some (setdefault_each key (enumerate value 0) ∅)) us ≫= λ inds,
   match all_found inds with
   | None => Raise (KeyError msg2)
   | Some inds => Return inds
   end) = Return inds →
  Forall2 (λ x i, i < length value ∧
                  ∃ a, value !! i = Some a ∧ uid_attr x = Some (key a) ∧
                       ∀ j b, value !! j = Some b → j < i → key b ≠ key a)
          xs inds.
Proof.
  destruct (require_uids_cases msg1 xs) as [(us & -> & Hus)|[-> _]];
    [|discriminate].
  rewrite bind_Return, get_all_Some, bind_Return.
  destruct (all_found _) as [l|] eqn:Hall; [|discriminate].
  intros [= ->]. apply all_found_inv in Hall.
  apply Forall2_fmap_l in Hall.
  apply Forall2_same_length_lookup_2.
  - rewrite (Forall2_length _ _ _ Hus). exact (Forall2_length _ _ _ Hall).
  - intros k x i Hx Hi.
    destruct (Forall2_lookup_l _ _ _ _ _ Hus Hx) as (u & Hu & Hxu).
    destruct (Forall2_lookup_l _ _ _ _ _ Hall Hu) as (i' & Hi' & Hd).
    assert (i' = i) as -> by congruence.
    apply setdefault_each_first in Hd as [(a & Ha & Hkey) Hfirst].
    split; [eapply lookup_lt_Some; exact Ha|].
    exists a. split; [exact Ha|]. split; [congruence|].
    intros j b Hb Hlt. rewrite Hkey. exact (Hfirst j b Hb Hlt).
Qed.

End lookup_sound.

(** X12. Whatever objects are queried, when [getSourceIndex] returns on a
    survey whose source list was assigned, it returns one index per queried
    object, in order; each index is below [nSrc] and is the first position
    of the list whose source carries the uid of the queried object. The
    same holds for [getReceiverIndex] and the receiver list. *)
Theorem index_lookup_returns_first_position_of_uid :
  (∀ (self survey : BaseSurvey) (value : list BaseSrc) (arg : lookup_arg)
     (inds : list nat),
     BaseSurvey.set_srcList self value = Return survey →
     BaseSurvey.getSourceIndex survey arg = Return inds →
     Forall2 (λ x i, i < BaseSurvey.nSrc survey ∧
                     ∃ src, srcList survey !! i = Some src ∧
                            uid_attr x = Some (src_uid src) ∧
                            ∀ j src', srcList survey !! j = Some src' → j < i →
                                      src_uid src' ≠ src_uid src)
             (match arg with NotAList x => [x] | AList xs => xs end) inds) ∧
  (∀ (self src : BaseSrc) (value : list Rx) (arg : lookup_arg)
     (inds : list nat),
     BaseSrc.set_rxList self value = Return src →
     BaseSrc.getReceiverIndex src arg = Return inds →
     Forall2 (λ x i, i < length (rxList src) ∧
                     ∃ rx, rxList src !! i = Some rx ∧
                           uid_attr x = Some (uid (as_BaseRx rx)) ∧
                           ∀ j rx', rxList src !! j = Some rx' → j < i →
                                    uid (as_BaseRx rx') ≠ uid (as_BaseRx rx))
             (match arg with NotAList x => [x] | AList xs => xs end) inds).
Proof.
  split.
  - intros self survey value arg inds Hset Hget.
    apply srcList_validator_Return in Hset as [_ ->].
    exact (returned_positions_match src_uid value _ _ _ _ _ Hget).
  - intros self src value arg inds Hset Hget.
    apply rxList_validator_Return in Hset as [_ ->].
    exact (returned_positions_match (λ rx, uid (as_BaseRx rx)) value _ _ _ _ _ Hget).
Qed.

Lemma index_lookup_returns_first_position_of_uid_witness :
  Forall2 (λ x i, i < BaseSurvey.nSrc Samples.survey ∧
                  ∃ src, srcList Samples.survey !! i = Some src ∧
                         uid_attr x = Some (src_uid src) ∧
                         ∀ j src', srcList Samples.survey !! j = Some src' →
                                   j < i → src_uid src' ≠ src_uid src)
          [PyObject 77 (Some 201%N); Src_object Samples.srcA] [1; 0].
Proof.
  apply (proj1 index_lookup_returns_first_position_of_uid
           Samples.new_survey Samples.survey [Samples.srcA; Samples.srcB]
           (AList [PyObject 77 (Some 201%N); Src_object Samples.srcA]) [1; 0]);
    vm_compute; reflexivity.
Defined.

(** X13. The uids are checked before any table is read: a queried object
    without uid makes the lookup raise the "does not have a uid" [KeyError]
    whatever the state of the survey or source and whatever else is queried.
    The empty query returns the empty list in every state, and on a survey
    or source that has no table yet a non-empty query of objects with uids
    raises [AttributeError]. *)
Theorem index_lookup_checks_uids_first (xs : list pyobject) :
  (∀ self : BaseSurvey,
     BaseSurvey.getSourceIndex self (AList []) = Return [] ∧
     (Exists (λ x, uid_attr x = None) xs →
      BaseSurvey.getSourceIndex self (AList xs)
      = Raise (KeyError "Source does not have a uid: ")) ∧
     (_sourceOrder self = None → xs ≠ [] →
      Forall (λ x, is_Some (uid_attr x)) xs →
      BaseSurvey.getSourceIndex self (AList xs)
      = Raise (AttributeError "_sourceOrder"))) ∧
  (∀ self : BaseSrc,
     BaseSrc.getReceiverIndex self (AList []) = Return [] ∧
     (Exists (λ x, uid_attr x = None) xs →
      BaseSrc.getReceiverIndex self (AList xs)
      = Raise (KeyError "Source does not have a uid: ")) ∧
     (_rxOrder self = None → xs ≠ [] →
      Forall (λ x, is_Some (uid_attr x)) xs →
      BaseSrc.getReceiverIndex self (AList xs)
      = Raise (AttributeError "_rxOrder"))).
Proof.
  assert (∀ msg, Exists (λ x, uid_attr x = None) xs →
                 require_uids msg xs = Raise (KeyError msg)) as Hnone.
  { intros msg Hex.
    destruct (require_uids_cases msg xs) as [(us & _ & Hus)|[-> _]];
      [|reflexivity].
    exfalso. apply Exists_exists in Hex as (x & Hx & Hnone).
    apply list_elem_of_lookup_1 in Hx as [k Hk].
    destruct (Forall2_lookup_l _ _ _ _ _ Hus Hk) as (u & _ & Hu). congruence. }
  assert (∀ msg, xs ≠ [] → Forall (λ x, is_Some (uid_attr x)) xs →
                 ∃ u us, require_uids msg xs = Return (u :: us)) as Hsome.
  { intros msg Hne Hall.
    destruct (require_uids_cases msg xs) as [(us & Hus & Hf)|[_ Hex]].
    - destruct us as [|u us]; [|eauto].
      apply Forall2_nil_inv_r in Hf. contradiction.
    - exfalso. apply Exists_exists in Hex as (x & Hx & Hn).
      rewrite Forall_forall in Hall. destruct (Hall x Hx) as [u Hu]. congruence. }
  split; intros self; (split; [reflexivity|]); split.
  - intros Hex. unfold BaseSurvey.getSourceIndex. rewrite (Hnone _ Hex).
    reflexivity.
  - intros Htable Hne Hall. unfold BaseSurvey.getSourceIndex.
    destruct (Hsome "Source does not have a uid: " Hne Hall) as (u & us & ->).
    rewrite Htable. reflexivity.
  - intros Hex. unfold BaseSrc.getReceiverIndex. rewrite (Hnone _ Hex).
    reflexivity.
  - intros Htable Hne Hall. unfold BaseSrc.getReceiverIndex.
    destruct (Hsome "Source does not have a uid: " Hne Hall) as (u & us & ->).
    rewrite Htable. reflexivity.
Qed.

Lemma index_lookup_checks_uids_first_witness :
  BaseSurvey.getSourceIndex Samples.survey
    (AList [PyObject 99 (Some 999%N); PyObject 98 None])
  = Raise (KeyError "Source does not have a uid: ") ∧
  BaseSurvey.getSourceIndex Samples.new_survey
    (AList [PyObject 99 (Some 999%N)])
  = Raise (AttributeError "_sourceOrder").
Proof.
  destruct (index_lookup_checks_uids_first
              [PyObject 99 (Some 999%N); PyObject 98 None]) as [Hs _].
  destruct (index_lookup_checks_uids_first [PyObject 99 (Some 999%N)]) as [Hn _].
  split.
  - apply (proj1 (proj2 (Hs Samples.survey))).
    apply Exists_cons_tl, Exists_cons_hd. reflexivity.
  - apply (proj2 (proj2 (Hn Samples.new_survey))); [reflexivity|discriminate|].
    repeat constructor. eexists. reflexivity.
Defined.

(** *** The projections of a time-domain receiver *)

Lemma time_getP_cases (self : BaseTimeRx.cached) (mesh timeMesh : Mesh) :
  let key := (mesh_oid mesh, mesh_oid timeMesh) in
  let o := BaseTimeRx.getP self mesh timeMesh in
  (∃ P, BaseTimeRx._Ps_time self !! key = Some P ∧
        o = BaseTimeRx.Outcome (Return P) self []) ∨
  (∃ e, BaseTimeRx._Ps_time self !! key = None ∧
        o = BaseTimeRx.Outcome (Raise e) self []) ∨
  (∃ P, BaseTimeRx._Ps_time self !! key = None ∧
        storeProjections (base (BaseTimeRx.rx self)) = false ∧
        o = BaseTimeRx.Outcome (Return P) self [key]) ∨
  (∃ P, BaseTimeRx._Ps_time self !! key = None ∧
        storeProjections (base (BaseTimeRx.rx self)) = true ∧
        o = BaseTimeRx.Outcome (Return P)
              (BaseTimeRx.Cached (BaseTimeRx.rx self)
                 (<[key := P]> (BaseTimeRx._Ps_time self)))
              [key]).
Proof.
  intros key o. subst key o. unfold BaseTimeRx.getP.
  destruct (BaseTimeRx._Ps_time self !! (mesh_oid mesh, mesh_oid timeMesh))
    as [P|] eqn:Hk; [left; eauto|]. right.
  destruct (BaseTimeRx.getSpatialP (BaseTimeRx.rx self) mesh) as [Ps|e];
    [|left; eauto].
  destruct (BaseTimeRx.getTimeP (BaseTimeRx.rx self) timeMesh) as [Pt|e];
    [|left; eauto]. right.
  destruct (storeProjections (base (BaseTimeRx.rx self))) eqn:Hstore;
    [right|left]; eauto.
Qed.

Lemma time_getP_run_builds_once (calls : list (Mesh * Mesh))
    (self : BaseTimeRx.cached) :
  storeProjections (base (BaseTimeRx.rx self)) = true →
  NoDup (snd (BaseTimeRx.getP_run self calls)) ∧
  (∀ k, k ∈ snd (BaseTimeRx.getP_run self calls) →
        BaseTimeRx._Ps_time self !! k = None) ∧
  BaseTimeRx.rx (fst (BaseTimeRx.getP_run self calls)) = BaseTimeRx.rx self.
Proof.
  revert self. induction calls as [|[mesh timeMesh] calls IH]; intros self Hstore.
  - simpl. split; [constructor|]. split; [|reflexivity].
    intros k Hk. by apply elem_of_nil in Hk.
  - simpl.
    destruct (time_getP_cases self mesh timeMesh)
      as [(P & Hk & ->)|[(e & Hk & ->)|[(P & Hk & Hs & ->)|(P & Hk & Hs & ->)]]];
      simpl; try (exact (IH self Hstore)); [congruence|].
    destruct (IH (BaseTimeRx.Cached (BaseTimeRx.rx self)
                    (<[(mesh_oid mesh, mesh_oid timeMesh) := P]>
                       (BaseTimeRx._Ps_time self))) Hstore)
      as (Hnd & Hfresh & Hrx).
    assert (∀ k, k ∈ snd (BaseTimeRx.getP_run
                   (BaseTimeRx.Cached (BaseTimeRx.rx self)
                      (<[(mesh_oid mesh, mesh_oid timeMesh) := P]>
                         (BaseTimeRx._Ps_time self))) calls) →
                 k ≠ (mesh_oid mesh, mesh_oid timeMesh) ∧
                 BaseTimeRx._Ps_time self !! k = None) as Hlater.
    { intros k Hin. specialize (Hfresh k Hin). simpl in Hfresh.
      rewrite lookup_insert in Hfresh. case_decide; [discriminate|].
      split; [congruence | exact Hfresh]. }
    split; [|split; [|exact Hrx]].
    + apply NoDup_cons. split; [|exact Hnd].
      intros Hin. by destruct (Hlater _ Hin).
    + intros k Hin. apply elem_of_cons in Hin as [->|Hin]; [exact Hk|].
      by destruct (Hlater _ Hin).
Qed.

(** X14. [BaseTimeRx.getP] memoizes under the pair of the mesh and the
    time mesh: a stored matrix is returned as it is, without asking either
    mesh and without changing anything; while [storeProjections] is true
    every pair is built at most once over a run of calls; with
    [storeProjections] false a call changes nothing; and no call changes the
    receiver itself. *)
Theorem time_getP_is_memoized (self : BaseTimeRx.cached) (mesh timeMesh : Mesh) :
  let key := (mesh_oid mesh, mesh_oid timeMesh) in
  let o := BaseTimeRx.getP self mesh timeMesh in
  (∀ P, BaseTimeRx._Ps_time self !! key = Some P →
        o = BaseTimeRx.Outcome (Return P) self []) ∧
  (∀ P, storeProjections (base (BaseTimeRx.rx self)) = true →
        BaseTimeRx.value o = Return P →
        BaseTimeRx._Ps_time (BaseTimeRx.receiver o) !! key = Some P) ∧
  (∀ calls, storeProjections (base (BaseTimeRx.rx self)) = true →
            NoDup (snd (BaseTimeRx.getP_run self calls))) ∧
  (storeProjections (base (BaseTimeRx.rx self)) = false →
   BaseTimeRx.receiver o = self) ∧
  BaseTimeRx.rx (BaseTimeRx.receiver o) = BaseTimeRx.rx self.
Proof.
  intros key o.
  destruct (time_getP_cases self mesh timeMesh)
    as [(P & Hk & Ho)|[(e & Hk & Ho)|[(P & Hk & Hs & Ho)|(P & Hk & Hs & Ho)]]];
    fold key in Hk, Ho; fold o in Ho; rewrite Ho; simpl;
    (split; [intros P' HP'; congruence|]);
    (split; [intros P' Hs' [= <-]; try congruence;
             try apply lookup_insert_eq|]);
    (split; [intros calls Hs'; apply time_getP_run_builds_once, Hs'|]);
    (split; [intros Hs'; congruence|]); reflexivity.
Qed.

Lemma time_getP_is_memoized_witness :
  NoDup (snd (BaseTimeRx.getP_run Samples.timed
                [(Samples.row_mesh 5, Samples.row_mesh 6);
                 (Samples.row_mesh 5, Samples.row_mesh 6);
                 (Samples.row_mesh 5, Samples.row_mesh 7)])).
Proof.
  destruct (time_getP_is_memoized Samples.timed (Samples.row_mesh 5)
              (Samples.row_mesh 6)) as (_ & _ & Hrun & _).
  exact (Hrun _ eq_refl).
Defined.

Lemma length_flat_map_const {A B : Type} (f : A → list B) (l : list A) (c : nat) :
  (∀ x, x ∈ l → length (f x) = c) → length (flat_map f l) = length l * c.
Proof.
  induction l as [|x l IH]; intros Hc; [reflexivity|].
  simpl. rewrite length_app, Hc by (apply elem_of_cons; left; reflexivity).
  rewrite IH; [lia|]. intros y Hy. apply Hc, elem_of_cons. right. exact Hy.
Qed.

Lemma kron_rows_length (A B : Np.matrix) :
  length (Np.rows A) = Np.nrows A → length (Np.rows B) = Np.nrows B →
  length (Np.rows (Np.kron A B)) = Np.nrows (Np.kron A B).
Proof.
  intros HA HB. simpl.
  rewrite (length_flat_map_const _ _ (Np.nrows B)).
  - rewrite HA. reflexivity.
  - intros ra _. rewrite length_map. exact HB.
Qed.

(** X15. When the mesh gives a spatial interpolation matrix with one row
    per receiver location and the time mesh one with one row per time
    sample, the projection that [BaseTimeRx.getP] builds is their Kronecker
    product and has exactly [nD] rows. *)
Theorem time_projection_has_nD_rows (self : BaseTimeRx.cached)
    (mesh timeMesh : Mesh) (Ps Pt : Np.matrix) :
  length (shape (locs (base (BaseTimeRx.rx self)))) = 2 →
  BaseTimeRx._Ps_time self !! (mesh_oid mesh, mesh_oid timeMesh) = None →
  BaseTimeRx.getSpatialP (BaseTimeRx.rx self) mesh = Return Ps →
  BaseTimeRx.getTimeP (BaseTimeRx.rx self) timeMesh = Return Pt →
  Np.nrows Ps = rows (locs (base (BaseTimeRx.rx self))) →
  length (Np.rows Ps) = Np.nrows Ps →
  Np.nrows Pt = length (times (BaseTimeRx.rx self)) →
  length (Np.rows Pt) = Np.nrows Pt →
  ∃ P, BaseTimeRx.value (BaseTimeRx.getP self mesh timeMesh) = Return P ∧
       P = Np.kron Pt Ps ∧
       length (Np.rows P) = Np.nrows P ∧
       BaseTimeRx.nD (BaseTimeRx.rx self) = Return (Z.of_nat (Np.nrows P)).
Proof.
  intros H2d Hk HPs HPt Hrs Hws Hrt Hwt. exists (Np.kron Pt Ps).
  split; [unfold BaseTimeRx.getP; rewrite Hk, HPs, HPt; reflexivity|].
  split; [reflexivity|]. split; [apply kron_rows_length; assumption|].
  pose proof (Rx_nD_count (IsBaseTimeRx (BaseTimeRx.rx self)) H2d) as HnD.
  simpl in HnD. rewrite HnD. simpl. f_equal. rewrite Hrs, Hrt. lia.
Qed.

Lemma time_projection_has_nD_rows_witness :
  ∃ P, BaseTimeRx.value (BaseTimeRx.getP Samples.timed (Samples.row_mesh 5)
                           (Samples.row_mesh 6)) = Return P ∧
       length (Np.rows P) = 8 ∧
       BaseTimeRx.nD Samples.rxB = Return 8%Z.
Proof.
  destruct (time_projection_has_nD_rows Samples.timed (Samples.row_mesh 5)
              (Samples.row_mesh 6) _ _ eq_refl eq_refl eq_refl eq_refl
              eq_refl eq_refl eq_refl eq_refl) as (P & HP & -> & Hlen & HnD).
  exists (Np.kron
            {| Np.nrows := 4; Np.ncols := 1; Np.rows := replicate 4 [1%R] |}
            {| Np.nrows := 2; Np.ncols := 1; Np.rows := replicate 2 [1%R] |}).
  split; [exact HP|]. split; [exact Hlen | exact HnD].
Defined.

(** *** Assignment and lookup, by uid *)

(** C5. Assigning a receiver list in which an object occurs twice raises
    the assertion error at the assignment, and so does assigning a source
    list in which an object occurs twice. When the assignment succeeds the
    list is stored and the lookup table is built anew from it: the table
    sends a uid to the first position at which an element carries it, and
    holds no other entry; so an element goes to its own position unless an
    earlier element carries the same uid. *)
Theorem assignment_checks_uniqueness_and_rebuilds_table :
  (∀ (self : BaseSrc) (value : list Rx),
     ¬ NoDup ((λ rx, rx_oid (as_BaseRx rx)) <$> value) →
     BaseSrc.set_rxList self value
     = Raise (AssertionError "The rxList must be unique")) ∧
  (∀ (self : BaseSurvey) (value : list BaseSrc),
     ¬ NoDup (src_oid <$> value) →
     BaseSurvey.set_srcList self value
     = Raise (AssertionError "The srcList must be unique")) ∧
  (∀ (self src : BaseSrc) (value : list Rx),
     BaseSrc.set_rxList self value = Return src →
     rxList src = value ∧
     ∃ d, _rxOrder src = Some d ∧
          (∀ u i, d !! u = Some i ↔
                  first_position (λ rx, uid (as_BaseRx rx)) value u i) ∧
          (∀ i rx, value !! i = Some rx →
                   (∀ j rx', value !! j = Some rx' → j < i →
                             uid (as_BaseRx rx') ≠ uid (as_BaseRx rx)) →
                   d !! uid (as_BaseRx rx) = Some i)) ∧
  (∀ (self survey : BaseSurvey) (value : list BaseSrc),
     BaseSurvey.set_srcList self value = Return survey →
     srcList survey = value ∧
     ∃ d, _sourceOrder survey = Some d ∧
          (∀ u i, d !! u = Some i ↔ first_position src_uid value u i) ∧
          (∀ i src, value !! i = Some src →
                    (∀ j src', value !! j = Some src' → j < i →
                               src_uid src' ≠ src_uid src) →
                    d !! src_uid src = Some i)).
Proof.
  split; [|split; [|split]].
  - intros self value Hdup.
    unfold BaseSrc.set_rxList, BaseSrc._rxList_validator.
    destruct (Nat.eqb_spec (len_set ((λ rx, rx_oid (as_BaseRx rx)) <$> value))
                           (length value)) as [Hlen|Hlen]; [|reflexivity].
    exfalso. apply Hdup, len_set_NoDup. rewrite length_fmap. exact Hlen.
  - intros self value Hdup.
    unfold BaseSurvey.set_srcList, BaseSurvey._srcList_validator.
    destruct (Nat.eqb_spec (len_set (src_oid <$> value)) (length value))
      as [Hlen|Hlen]; [|reflexivity].
    exfalso. apply Hdup, len_set_NoDup. rewrite length_fmap. exact Hlen.
  - intros self src value Hset.
    apply rxList_validator_Return in Hset as [_ ->]. simpl.
    split; [reflexivity|]. eexists. split; [reflexivity|]. split.
    + intros u i. apply (setdefault_each_first (λ rx, uid (as_BaseRx rx))).
    + intros i rx Hrx Hfirst.
      apply (setdefault_each_first (λ rx, uid (as_BaseRx rx))).
      split; [eauto | exact Hfirst].
  - intros self survey value Hset.
    apply srcList_validator_Return in Hset as [_ ->]. simpl.
    split; [reflexivity|]. eexists. split; [reflexivity|]. split.
    + intros u i. apply (setdefault_each_first src_uid).
    + intros i src Hsrc Hfirst. apply (setdefault_each_first src_uid).
      split; [eauto | exact Hfirst].
Qed.

Lemma assignment_checks_uniqueness_and_rebuilds_table_witness :
  BaseSrc.set_rxList (Samples.new_src 20 200%N)
                     [IsBaseRx Samples.rxA; IsBaseRx Samples.rxA]
  = Raise (AssertionError "The rxList must be unique") ∧
  BaseSurvey.set_srcList Samples.new_survey [Samples.srcB; Samples.srcB]
  = Raise (AssertionError "The srcList must be unique") ∧
  (∃ d, _rxOrder Samples.srcA = Some d ∧
        d !! 100%N = Some 0 ∧ d !! 101%N = Some 1) ∧
  (∃ d, _sourceOrder Samples.survey = Some d ∧
        d !! 200%N = Some 0 ∧ d !! 201%N = Some 1).
Proof.
  destruct assignment_checks_uniqueness_and_rebuilds_table
    as (Hrx & Hsrc & Hrxs & Hsrcs).
  split; [|split; [|split]].
  - apply Hrx. simpl. intros Hnd. apply NoDup_cons in Hnd as [Hnin _].
    apply Hnin. apply elem_of_cons. left. reflexivity.
  - apply Hsrc. simpl. intros Hnd. apply NoDup_cons in Hnd as [Hnin _].
    apply Hnin. apply elem_of_cons. left. reflexivity.
  - destruct (Hrxs (Samples.new_src 20 200%N) Samples.srcA Samples.receivers)
      as (_ & d & Hd & _ & Hpos); [vm_compute; reflexivity|].
    exists d. split; [exact Hd|]. split.
    + apply (Hpos 0 (IsBaseRx Samples.rxA) eq_refl). intros j rx' _ Hlt. lia.
    + apply (Hpos 1 (IsBaseTimeRx Samples.rxB) eq_refl). intros j rx' Hj Hlt.
      destruct j as [|j]; [|lia]. injection Hj as <-. discriminate.
  - destruct (Hsrcs Samples.new_survey Samples.survey [Samples.srcA; Samples.srcB])
      as (_ & d & Hd & _ & Hpos); [vm_compute; reflexivity|].
    exists d. split; [exact Hd|]. split.
    + apply (Hpos 0 Samples.srcA eq_refl). intros j src' _ Hlt. lia.
    + apply (Hpos 1 Samples.srcB eq_refl). intros j src' Hj Hlt.
      destruct j as [|j]; [|lia]. injection Hj as <-. discriminate.
Defined.

(** At the receiver list [rxA, rxB, twin], where [twin] is another object
    with the uid of [rxA]: the assignment succeeds, and the table sends the
    uid of the element at position 2 to position 0. *)
Lemma shared_uid_goes_to_first_position :
  ∃ src d,
    BaseSrc.set_rxList (Samples.new_src 20 200%N) Samples.receivers_with_twin
    = Return src ∧
    _rxOrder src = Some d ∧
    Samples.receivers_with_twin !! 2 = Some (IsBaseRx Samples.rxA_twin) ∧
    d !! uid Samples.rxA_twin = Some 0 ∧
    d !! uid Samples.rxA_twin ≠ Some 2.
Proof.
  eexists _, _. split; [vm_compute; reflexivity|].
  split; [reflexivity|]. split; [reflexivity|].
  split; [vm_compute; reflexivity | vm_compute; discriminate].
Qed.

Section lookup_by_uid.
Context {A : Type} (key : A → Uuid) (value : list A).
Context (msg1 attr msg2 : string).

(** What both [getReceiverIndex] and [getSourceIndex] run on the list of
    queried objects, for the table built from [value]. *)
Local Abbreviation lookup_in_table xs :=
  (require_uids msg1 xs ≫= λ us,
   get_all attr (Some (setdefault_each key (enumerate value 0) ∅)) us ≫= λ inds,
   match all_found inds with
   | None => Raise (KeyError msg2)
   | Some inds => Return inds
   end).

Lemma listed_uid_in_table (u : Uuid) :
  (∃ a, a ∈ value ∧ key a = u) →
  is_Some (setdefault_each key (enumerate value 0) ∅ !! u).
Proof.
  intros (a & Ha & Hkey). rewrite setdefault_each_lookup, lookup_empty.
  destruct (list_find_elem_of (λ x, key x = u) value a Ha Hkey) as [p ->].
  simpl. eauto.
Qed.

Lemma unlisted_uid_not_in_table (u : Uuid) :
  (∀ a, a ∈ value → key a ≠ u) →
  setdefault_each key (enumerate value 0) ∅ !! u = None.
Proof.
  intros Hnone.
  destruct (setdefault_each key (enumerate value 0) ∅ !! u) as [i|] eqn:Hd;
    [|reflexivity].
  apply setdefault_each_first in Hd as [(a & Ha & Hkey) _].
  exfalso. apply (Hnone a); [eapply list_elem_of_lookup_2; exact Ha | exact Hkey].
Qed.

Lemma listed_uids_are_found (xs : list pyobject) :
  Forall (λ x, ∃ a, a ∈ value ∧ uid_attr x = Some (key a)) xs →
  ∃ inds, lookup_in_table xs = Return inds ∧
          Forall2 (λ x i, ∃ u, uid_attr x = Some u ∧ first_position key value u i)
                  xs inds.
Proof.
  intros Hxs.
  assert (∃ us inds,
            Forall2 (λ x u, uid_attr x = Some u) xs us ∧
            Forall2 (λ u i, setdefault_each key (enumerate value 0) ∅ !! u = Some i)
                    us inds) as (us & inds & Hus & Hinds).
  { induction Hxs as [|x xs (a & Ha & Hx) _ (us & inds & Hus & Hinds)].
    - exists [], []. split; constructor.
    - destruct (listed_uid_in_table (key a)) as [i Hi]; [eauto|].
      exists (key a :: us), (i :: inds). split; constructor; assumption. }
  exists inds. split.
  - rewrite (require_uids_Return _ _ _ Hus), bind_Return, get_all_Some, bind_Return.
    rewrite (all_found_Some _ inds); [reflexivity|].
    apply Forall2_fmap_l. exact Hinds.
  - apply Forall2_same_length_lookup_2.
    + rewrite (Forall2_length _ _ _ Hus). exact (Forall2_length _ _ _ Hinds).
    + intros k x i Hx Hi.
      destruct (Forall2_lookup_l _ _ _ _ _ Hus Hx) as (u & Hu & Hxu).
      destruct (Forall2_lookup_l _ _ _ _ _ Hinds Hu) as (i' & Hi' & Hd).
      assert (i' = i) as -> by congruence.
      exists u. split; [exact Hxu|]. apply setdefault_each_first, Hd.
Qed.

Lemma unlisted_uid_raises (xs : list pyobject) :
  Exists (λ x, uid_attr x = None
               ∨ ∃ u, uid_attr x = Some u ∧ ∀ a, a ∈ value → key a ≠ u) xs →
  ∃ msg, lookup_in_table xs = Raise (KeyError msg).
Proof.
  intros Hex.
  destruct (require_uids_cases msg1 xs) as [(us & -> & Hus)|[-> _]];
    [|exists msg1; reflexivity].
  exists msg2. rewrite bind_Return, get_all_Some, bind_Return.
  rewrite all_found_None; [reflexivity|].
  apply Exists_exists in Hex as (x & Hx & Habs).
  apply list_elem_of_lookup_1 in Hx as [k Hk].
  destruct (Forall2_lookup_l _ _ _ _ _ Hus Hk) as (u & Hu & Hxu).
  apply list_elem_of_lookup. exists k. rewrite list_lookup_fmap, Hu. simpl.
  f_equal. destruct Habs as [Hnone|(u' & Hu' & Hnone)]; [congruence|].
  assert (u' = u) as -> by congruence.
  apply unlisted_uid_not_in_table, Hnone.
Qed.

End lookup_by_uid.

(** C6. On a survey whose source list was assigned, [getSourceIndex]
    matches the queried objects to the sources by uid. When every queried
    object carries the uid of a source of the list, as the sources of the
    list themselves do, it returns one position per queried object in the
    order of the query, each the first position of the list whose source
    carries that uid (a single object that is not wrapped in a list gives a
    one-element answer). When a queried object has no uid, or carries a uid
    that no source of the list carries, the call raises [KeyError] and
    returns nothing. The same holds for [getReceiverIndex] on a source whose
    receiver list was assigned. *)
Theorem index_lookup_is_all_or_nothing :
  (∀ (self survey : BaseSurvey) (value : list BaseSrc),
     BaseSurvey.set_srcList self value = Return survey →
     (∀ xs, Forall (λ x, ∃ src, src ∈ srcList survey ∧
                                uid_attr x = Some (src_uid src)) xs →
        ∃ inds,
          BaseSurvey.getSourceIndex survey (AList xs) = Return inds ∧
          Forall2 (λ x i, ∃ u, uid_attr x = Some u ∧
                               first_position src_uid (srcList survey) u i)
                  xs inds) ∧
     (∀ qs, Forall (λ q, q ∈ srcList survey) qs →
        ∃ inds,
          BaseSurvey.getSourceIndex survey (AList (Src_object <$> qs)) = Return inds ∧
          Forall2 (λ q i, first_position src_uid (srcList survey) (src_uid q) i)
                  qs inds) ∧
     (∀ q, q ∈ srcList survey →
        ∃ i,
          BaseSurvey.getSourceIndex survey (NotAList (Src_object q)) = Return [i] ∧
          first_position src_uid (srcList survey) (src_uid q) i) ∧
     (∀ xs, Exists (λ x, uid_attr x = None
                         ∨ ∃ u, uid_attr x = Some u ∧
                                ∀ src, src ∈ srcList survey → src_uid src ≠ u) xs →
        ∃ msg, BaseSurvey.getSourceIndex survey (AList xs) = Raise (KeyError msg))) ∧
  (∀ (self src : BaseSrc) (value : list Rx),
     BaseSrc.set_rxList self value = Return src →
     (∀ xs, Forall (λ x, ∃ rx, rx ∈ rxList src ∧
                               uid_attr x = Some (uid (as_BaseRx rx))) xs →
        ∃ inds,
          BaseSrc.getReceiverIndex src (AList xs) = Return inds ∧
          Forall2 (λ x i, ∃ u, uid_attr x = Some u ∧
                               first_position (λ rx, uid (as_BaseRx rx))
                                              (rxList src) u i)
                  xs inds) ∧
     (∀ qs, Forall (λ q, q ∈ rxList src) qs →
        ∃ inds,
          BaseSrc.getReceiverIndex src (AList (Rx_object <$> qs)) = Return inds ∧
          Forall2 (λ q i, first_position (λ rx, uid (as_BaseRx rx)) (rxList src)
                                         (uid (as_BaseRx q)) i)
                  qs inds) ∧
     (∀ q, q ∈ rxList src →
        ∃ i,
          BaseSrc.getReceiverIndex src (NotAList (Rx_object q)) = Return [i] ∧
          first_position (λ rx, uid (as_BaseRx rx)) (rxList src)
                         (uid (as_BaseRx q)) i) ∧
     (∀ xs, Exists (λ x, uid_attr x = None
                         ∨ ∃ u, uid_attr x = Some u ∧
                                ∀ rx, rx ∈ rxList src → uid (as_BaseRx rx) ≠ u) xs →
        ∃ msg, BaseSrc.getReceiverIndex src (AList xs) = Raise (KeyError msg))).
Proof.
  split.
  - intros self survey value Hset.
    apply srcList_validator_Return in Hset as [_ ->]. cbn [srcList].
    assert (∀ xs, Forall (λ x, ∃ src, src ∈ value ∧
                                      uid_attr x = Some (src_uid src)) xs →
      ∃ inds,
        BaseSurvey.getSourceIndex
          {| srcList := value;
             _sourceOrder := Some (setdefault_each src_uid (enumerate value 0) ∅) |}
          (AList xs) = Return inds ∧
        Forall2 (λ x i, ∃ u, uid_attr x = Some u ∧
                             first_position src_uid value u i) xs inds)
      as Hfound.
    { intros xs Hxs. exact (listed_uids_are_found src_uid value _ _ _ xs Hxs). }
    assert (∀ qs, Forall (λ q, q ∈ value) qs →
      ∃ inds,
        BaseSurvey.getSourceIndex
          {| srcList := value;
             _sourceOrder := Some (setdefault_each src_uid (enumerate value 0) ∅) |}
          (AList (Src_object <$> qs)) = Return inds ∧
        Forall2 (λ q i, first_position src_uid value (src_uid q) i) qs inds)
      as Hpresent.
    { intros qs Hqs. destruct (Hfound (Src_object <$> qs)) as (inds & Hret & Hpos).
      - apply Forall_fmap, Forall_forall. intros q Hq. exists q.
        rewrite Forall_forall in Hqs. split; [apply Hqs, Hq | reflexivity].
      - exists inds. split; [exact Hret|].
        apply Forall2_fmap_l in Hpos. eapply Forall2_impl; [exact Hpos|].
        intros q i (u & [= <-] & Hfirst). exact Hfirst. }
    split; [exact Hfound|]. split; [exact Hpresent|]. split.
    + intros q Hq. destruct (Hpresent [q]) as (inds & Hret & Hpos).
      { constructor; [exact Hq | constructor]. }
      apply Forall2_cons_inv_l in Hpos as (i & inds' & Hi & Hnil & ->).
      apply Forall2_nil_inv_l in Hnil as ->.
      exists i. split; [exact Hret | exact Hi].
    + intros xs Hex. exact (unlisted_uid_raises src_uid value _ _ _ xs Hex).
  - intros self src value Hset.
    apply rxList_validator_Return in Hset as [_ ->]. cbn [rxList].
    assert (∀ xs, Forall (λ x, ∃ rx, rx ∈ value ∧
                                     uid_attr x = Some (uid (as_BaseRx rx))) xs →
      ∃ inds,
        BaseSrc.getReceiverIndex
          {| src_oid := src_oid self; loc := loc self; rxList := value;
             src_uid := src_uid self;
             _rxOrder := Some (setdefault_each (λ rx, uid (as_BaseRx rx))
                                               (enumerate value 0) ∅) |}
          (AList xs) = Return inds ∧
        Forall2 (λ x i, ∃ u, uid_attr x = Some u ∧
                             first_position (λ rx, uid (as_BaseRx rx)) value u i)
                xs inds)
      as Hfound.
    { intros xs Hxs.
      exact (listed_uids_are_found (λ rx, uid (as_BaseRx rx)) value _ _ _ xs Hxs). }
    assert (∀ qs, Forall (λ q, q ∈ value) qs →
      ∃ inds,
        BaseSrc.getReceiverIndex
          {| src_oid := src_oid self; loc := loc self; rxList := value;
             src_uid := src_uid self;
             _rxOrder := Some (setdefault_each (λ rx, uid (as_BaseRx rx))
                                               (enumerate value 0) ∅) |}
          (AList (Rx_object <$> qs)) = Return inds ∧
        Forall2 (λ q i, first_position (λ rx, uid (as_BaseRx rx)) value
                                       (uid (as_BaseRx q)) i) qs inds)
      as Hpresent.
    { intros qs Hqs. destruct (Hfound (Rx_object <$> qs)) as (inds & Hret & Hpos).
      - apply Forall_fmap, Forall_forall. intros q Hq. exists q.
        rewrite Forall_forall in Hqs. split; [apply Hqs, Hq | reflexivity].
      - exists inds. split; [exact Hret|].
        apply Forall2_fmap_l in Hpos. eapply Forall2_impl; [exact Hpos|].
        intros q i (u & [= <-] & Hfirst). exact Hfirst. }
    split; [exact Hfound|]. split; [exact Hpresent|]. split.
    + intros q Hq. destruct (Hpresent [q]) as (inds & Hret & Hpos).
      { constructor; [exact Hq | constructor]. }
      apply Forall2_cons_inv_l in Hpos as (i & inds' & Hi & Hnil & ->).
      apply Forall2_nil_inv_l in Hnil as ->.
      exists i. split; [exact Hret | exact Hi].
    + intros xs Hex.
      exact (unlisted_uid_raises (λ rx, uid (as_BaseRx rx)) value _ _ _ xs Hex).
Qed.

Lemma index_lookup_is_all_or_nothing_witness :
  (∃ inds,
     BaseSurvey.getSourceIndex Samples.survey
       (AList [Src_object Samples.srcB; Src_object Samples.srcA]) = Return inds ∧
     Forall2 (λ q i, first_position src_uid (srcList Samples.survey) (src_uid q) i)
             [Samples.srcB; Samples.srcA] inds) ∧
  (∃ msg,
     BaseSurvey.getSourceIndex Samples.survey
       (AList [Src_object Samples.srcA; PyObject 99 (Some 999%N)])
     = Raise (KeyError msg)) ∧
  (∃ i,
     BaseSrc.getReceiverIndex Samples.srcA
       (NotAList (Rx_object (IsBaseTimeRx Samples.rxB))) = Return [i] ∧
     first_position (λ rx, uid (as_BaseRx rx)) (rxList Samples.srcA) 101%N i).
Proof.
  destruct index_lookup_is_all_or_nothing as [Hsurvey Hsrc].
  destruct (Hsurvey Samples.new_survey Samples.survey [Samples.srcA; Samples.srcB])
    as (_ & Hpresent & _ & Habsent); [vm_compute; reflexivity|].
  destruct (Hsrc (Samples.new_src 20 200%N) Samples.srcA Samples.receivers)
    as (_ & _ & Hone & _); [vm_compute; reflexivity|].
  split; [|split].
  - apply (Hpresent [Samples.srcB; Samples.srcA]). simpl.
    repeat constructor.
  - apply Habsent. apply Exists_cons_tl, Exists_cons_hd. right.
    exists 999%N. split; [reflexivity|]. simpl. intros src Hin.
    repeat (apply elem_of_cons in Hin as [->|Hin]; [discriminate|]).
    by apply elem_of_nil in Hin.
  - apply (Hone (IsBaseTimeRx Samples.rxB)). simpl. unfold Samples.receivers.
    repeat constructor.
Defined.

(** At the source holding [rxA, rxB]: a queried object that is not in the
    list (its identity is 13) and carries the uid of [rxA] is given position
    0, and nothing is raised. At the source holding [rxA, rxB, twin]: the
    element [twin], which is in the list at position 2 only, is given
    position 0. *)
Lemma absent_object_with_listed_uid_gets_an_index :
  ¬ (13 ∈ (λ rx, rx_oid (as_BaseRx rx)) <$> rxList Samples.srcA) ∧
  BaseSrc.getReceiverIndex Samples.srcA
    (AList [Rx_object (IsBaseRx Samples.rxA_twin)]) = Return [0] ∧
  ∃ src,
    BaseSrc.set_rxList (Samples.new_src 20 200%N) Samples.receivers_with_twin
    = Return src ∧
    rxList src !! 2 = Some (IsBaseRx Samples.rxA_twin) ∧
    rxList src !! 0 ≠ Some (IsBaseRx Samples.rxA_twin) ∧
    BaseSrc.getReceiverIndex src (AList [Rx_object (IsBaseRx Samples.rxA_twin)])
    = Return [0].
Proof.
  split.
  - simpl. intros Hin.
    repeat (apply elem_of_cons in Hin as [Hin|Hin]; [discriminate|]).
    by apply elem_of_nil in Hin.
  - split; [vm_compute; reflexivity|].
    eexists. split; [vm_compute; reflexivity|].
    split; [reflexivity|]. split; [simpl; intros [=] | vm_compute; reflexivity].
Qed.

(** *** Data counts below the integer range *)

Lemma big_rows_Z : Z.of_nat Samples.big_rows = (2 ^ 59)%Z.
Proof. unfold Samples.big_rows. rewrite Nat2Z.inj_pow. reflexivity. Qed.

(** C8. For a survey whose source list was assigned, whose receivers hold
    validated locations and whose data count is below 2^53: [BaseSurvey.nD]
    is the sum of the [BaseSrc.nD] of its sources; the [BaseSrc.nD] of each
    source is the sum of the [nD] of its receivers; the [nD] of a receiver
    is that of its class, for a [BaseRx] the number of rows of its
    locations array and for a [BaseTimeRx] that number times the number of
    its time samples. *)
Theorem nD_is_sum_over_sources_and_receivers
    (self survey : BaseSurvey) (value : list BaseSrc) :
  BaseSurvey.set_srcList self value = Return survey →
  locs_validated survey →
  (Survey_count survey < 2 ^ 53)%Z →
  (∃ ns, Forall2 (λ src n, BaseSrc.nD src = Return n ∧ n = Src_count src)
                 (srcList survey) ns ∧
         BaseSurvey.nD survey = Return (total ns)) ∧
  (∀ src, src ∈ srcList survey →
     ∃ ns, Forall2 (λ rx n, Rx_nD rx = Return n ∧ n = Rx_count rx)
                   (rxList src) ns ∧
           BaseSrc.nD src = Return (total ns)) ∧
  (∀ src rx, src ∈ srcList survey → rx ∈ rxList src →
     match rx with
     | IsBaseRx rx =>
         Rx_nD (IsBaseRx rx) = BaseRx.nD rx ∧
         BaseRx.nD rx = Return (Z.of_nat (rows (locs rx)))
     | IsBaseTimeRx rx =>
         Rx_nD (IsBaseTimeRx rx) = BaseTimeRx.nD rx ∧
         BaseTimeRx.nD rx
         = Return (Z.of_nat (rows (locs (base rx))) * Z.of_nat (length (times rx)))%Z
     end).
Proof.
  intros _ H2d Hsmall.
  assert (∀ src, src ∈ srcList survey → Src_count src < 2 ^ 63)%Z as Hsrc_small.
  { intros src Hsrc.
    assert (Src_count src <= Survey_count survey)%Z; [|lia].
    apply total_elem_le.
    - apply Forall_fmap, Forall_forall. intros s _. apply Src_count_nonneg.
    - apply list_elem_of_fmap. exists src. split; [reflexivity | exact Hsrc]. }
  assert (Forall2 (λ src n, BaseSrc.nD src = Return n ∧ n = Src_count src)
                  (srcList survey) (Src_count <$> srcList survey)) as Hsrcs.
  { apply Forall2_fmap_r, Forall_Forall2_diag, Forall_forall. intros src Hsrc.
    split; [|reflexivity].
    apply BaseSrc_nD_count; [intros rx; apply H2d, Hsrc | apply Hsrc_small, Hsrc]. }
  split; [|split].
  - exists (Src_count <$> srcList survey). split; [exact Hsrcs|].
    unfold BaseSurvey.nD, BaseSurvey.vnD.
    rewrite (mapM_Return _ _ (Src_count <$> srcList survey)), bind_Return.
    + unfold NpInt.sum. f_equal. apply int64_exact.
      assert (0 <= Survey_count survey)%Z.
      { apply total_nonneg, Forall_fmap, Forall_forall.
        intros s _. apply Src_count_nonneg. }
      unfold Survey_count, total in *. lia.
    + eapply Forall2_impl; [exact Hsrcs|]. intros src n [Hn _]. exact Hn.
  - intros src Hsrc. exists (Rx_count <$> rxList src). split.
    + apply Forall2_fmap_r, Forall_Forall2_diag, Forall_forall. intros rx Hrx.
      split; [|reflexivity]. apply Rx_nD_count, (H2d src rx Hsrc Hrx).
    + apply BaseSrc_nD_count; [intros rx; apply H2d, Hsrc | apply Hsrc_small, Hsrc].
  - intros src rx Hsrc Hrx.
    pose proof (Rx_nD_count rx (H2d src rx Hsrc Hrx)) as Hn.
    destruct rx; split; first [reflexivity | exact Hn].
Qed.

Lemma sample_locs_validated : locs_validated Samples.survey.
Proof.
  intros src rx Hsrc Hrx. simpl in Hsrc.
  repeat (apply elem_of_cons in Hsrc as [->|Hsrc]);
    try (by apply elem_of_nil in Hsrc); simpl in Hrx;
    repeat (apply elem_of_cons in Hrx as [->|Hrx]);
    try (by apply elem_of_nil in Hrx); reflexivity.
Qed.

Lemma nD_is_sum_over_sources_and_receivers_witness :
  ∃ ns, Forall2 (λ src n, BaseSrc.nD src = Return n ∧ n = Src_count src)
                (srcList Samples.survey) ns ∧
        BaseSurvey.nD Samples.survey = Return (total ns).
Proof.
  apply (nD_is_sum_over_sources_and_receivers Samples.new_survey Samples.survey
           [Samples.srcA; Samples.srcB]).
  - vm_compute. reflexivity.
  - exact sample_locs_validated.
  - vm_compute. reflexivity.
Defined.

Lemma big_receiver_nD :
  Rx_nD (IsBaseTimeRx Samples.bigA) = Return (2 ^ 62)%Z ∧
  Rx_nD (IsBaseTimeRx Samples.bigB) = Return (2 ^ 62)%Z.
Proof.
  split.
  - change (Rx_nD (IsBaseTimeRx Samples.bigA))
      with (Return (Z.of_nat Samples.big_rows * Z.of_nat 8)%Z).
    rewrite big_rows_Z. reflexivity.
  - change (Rx_nD (IsBaseTimeRx Samples.bigB))
      with (Return (Z.of_nat Samples.big_rows * Z.of_nat 8)%Z).
    rewrite big_rows_Z. reflexivity.
Qed.

Lemma big_src_nD : BaseSrc.nD Samples.big_src = Return (- 2 ^ 63)%Z.
Proof.
  unfold BaseSrc.nD, BaseSrc.vnD.
  rewrite (mapM_Return _ _ [2 ^ 62; 2 ^ 62]%Z), bind_Return.
  - reflexivity.
  - change (rxList Samples.big_src)
      with [IsBaseTimeRx Samples.bigA; IsBaseTimeRx Samples.bigB].
    constructor; [exact (proj1 big_receiver_nD)|].
    constructor; [exact (proj2 big_receiver_nD)|]. constructor.
Qed.

Lemma big_survey_nD : BaseSurvey.nD Samples.big_survey = Return (- 2 ^ 63)%Z.
Proof.
  unfold BaseSurvey.nD, BaseSurvey.vnD.
  rewrite (mapM_Return _ _ [- 2 ^ 63]%Z), bind_Return.
  - reflexivity.
  - change (srcList Samples.big_survey) with [Samples.big_src].
    constructor; [exact big_src_nD | constructor].
Qed.

Lemma big_locs_validated : locs_validated Samples.big_survey.
Proof.
  intros src rx Hs Hrx.
  change (srcList Samples.big_survey) with [Samples.big_src] in Hs.
  apply elem_of_cons in Hs as [->|Hs]; [|by apply elem_of_nil in Hs].
  change (rxList Samples.big_src)
    with [IsBaseTimeRx Samples.bigA; IsBaseTimeRx Samples.bigB] in Hrx.
  repeat (apply elem_of_cons in Hrx as [->|Hrx]; [reflexivity|]).
  by apply elem_of_nil in Hrx.
Qed.

Lemma big_survey_assigned :
  BaseSurvey.set_srcList Samples.new_survey [Samples.big_src]
  = Return Samples.big_survey.
Proof. reflexivity. Qed.

(** At the survey of one source with two time-domain receivers of 2^62
    data each: the source list is assigned, the locations are validated and
    each receiver reports 2^62, but the int64 sum of the two wraps around:
    the [nD] of the source and of the survey is -2^63, not 2^63. *)
Lemma nD_wraps_around_beyond_int64 :
  BaseSurvey.set_srcList Samples.new_survey [Samples.big_src]
  = Return Samples.big_survey ∧
  locs_validated Samples.big_survey ∧
  Rx_nD (IsBaseTimeRx Samples.bigA) = Return (2 ^ 62)%Z ∧
  Rx_nD (IsBaseTimeRx Samples.bigB) = Return (2 ^ 62)%Z ∧
  BaseSrc.nD Samples.big_src = Return (- 2 ^ 63)%Z ∧
  BaseSurvey.nD Samples.big_survey = Return (- 2 ^ 63)%Z ∧
  (- 2 ^ 63 ≠ 2 ^ 62 + 2 ^ 62)%Z.
Proof.
  refine (conj big_survey_assigned (conj big_locs_validated
            (conj (proj1 big_receiver_nD) (conj (proj2 big_receiver_nD)
               (conj big_src_nD (conj big_survey_nD _)))))).
  lia.
Qed.

End SurveyFacts.
